(** * Search page: pagination / result-cache coordination

    Shallow embedding of [src/pages/Search/index.tsx] (component
    [MovieSearchPage]).  The component keeps its state in React hooks; every
    handler is modelled as a function on the committed state that returns the
    next state together with the effects it performs (scroll, fetch, log).
    An [async] handler is split at its [await]: a [_begin] part that runs up
    to the call of the search service and a [_settle] part that runs when the
    promise settles.  A handler is a closure of the render that created it;
    in the transition system the component renders again between two events,
    so that each event runs the handler of the latest state, and
    [handleLoadMore_call] is the handler of any earlier render.

    Numbers are JavaScript numbers restricted to the integers a double holds,
    as [Z]: a sum is rounded to the nearest double ([jsAdd]) and a number
    used as a property name is printed first ([keyHasDot]).  Strings are
    [string]. *)

From Stdlib Require Import ZArith Lia Bool.
From stdpp Require Import base option list strings gmap.

Local Open Scope Z_scope.

(* ===================================================================== *)
(** ** Integer-valued JavaScript numbers                                   *)
(* ===================================================================== *)

Module JSNumber.

(** The double nearest to the integer [x], ties to the even significand.
    Below 2^53 every integer is a double; from there on a double is a
    53-bit significand times a power of two. *)
Definition roundDouble (x : Z) : Z :=
  let a := Z.abs x in
  if a <? 9007199254740992 then x
  else
    let e := Z.log2 a - 52 in
    let q := a / 2 ^ e in
    let r := a mod 2 ^ e in
    let half := 2 ^ (e - 1) in
    let m := if r <? half then q
             else if half <? r then q + 1
             else if Z.even q then q else q + 1 in
    Z.sgn x * (m * 2 ^ e).

(** [x + y] on numbers. *)
Definition jsAdd (x y : Z) : Z := roundDouble (x + y).

(** An estimate of the decimal exponent of [a], at most 1 off
    [floor (log10 a)]. *)
Definition decimalExponent (a : Z) : Z := Z.log2 a * 30103 / 100000.

(** The shortest decimal that reads back as the double [a] has one digit:
    [a] is the double nearest to [d * 10^n] for a digit [d]. *)
Definition printsOneDigit (a : Z) : bool :=
  let e := decimalExponent a in
  existsb (fun n => existsb (fun d => roundDouble (d * 10 ^ n) =? a) [1; 2; 3; 4; 5; 6; 7; 8; 9])
          [e - 1; e; e + 1; e + 2].

(** Whether the string of the number [k] (Number::toString, as in
    [`${key}`] and in a property name) contains a dot.  An integer below
    10^21 is printed as its digits; from 10^21 on a number is printed as
    [d.ddd e+n], with the dot unless one digit is enough ([1e+21]). *)
Definition keyHasDot (k : Z) : bool :=
  (1000000000000000000000 <=? Z.abs k) && negb (printsOneDigit (Z.abs k)).

Arguments roundDouble : simpl never.
Arguments jsAdd : simpl never.
Arguments keyHasDot : simpl never.

End JSNumber.

Import JSNumber.

(* ===================================================================== *)
(** ** Plain JavaScript objects used as page maps ([DataObject])          *)
(* ===================================================================== *)

(** [interface DataObject { [key: string]: string[] }].

    A property written as [_dataObj[page]] is named by the decimal string of
    the number [page]; that string is represented here by the integer itself.
    The representation lists the own properties in the order in which
    [for (const key in obj)] visits them (OrdinaryOwnPropertyKeys): first the
    array indices (integers from 0 to 2^32 - 2) in ascending numeric order,
    then every other key in the order in which it was created. *)
Module JSObject.

Definition DataObject : Type := list (Z * list string).

(** An array index is an integer [0 <= k < 2^32 - 1]. *)
Definition isArrayIndex (k : Z) : bool := (0 <=? k) && (k <? 4294967295).

Definition empty : DataObject := [].

Fixpoint hasOwn (k : Z) (o : DataObject) : bool :=
  match o with
  | [] => false
  | (k', _) :: o' => if k' =? k then true else hasOwn k o'
  end.

(** [o[k]]: [None] stands for [undefined]. *)
Fixpoint getProp (k : Z) (o : DataObject) : option (list string) :=
  match o with
  | [] => None
  | (k', v) :: o' => if k' =? k then Some v else getProp k o'
  end.

(** Assignment to a property the object already has: the value changes,
    the place in the enumeration order does not. *)
Fixpoint replaceProp (k : Z) (v : list string) (o : DataObject) : DataObject :=
  match o with
  | [] => []
  | (k', v') :: o' =>
      if k' =? k then (k, v) :: o' else (k', v') :: replaceProp k v o'
  end.

(** [precedes k k']: a newly created key [k] is enumerated before the
    existing key [k']. *)
Definition precedes (k k' : Z) : bool :=
  isArrayIndex k && (negb (isArrayIndex k') || (k <? k')).

(** Creation of a new own property. *)
Fixpoint addProp (k : Z) (v : list string) (o : DataObject) : DataObject :=
  match o with
  | [] => [(k, v)]
  | (k', v') :: o' =>
      if precedes k k' then (k, v) :: (k', v') :: o'
      else (k', v') :: addProp k v o'
  end.

(** [o[k] = v]. *)
Definition setProp (k : Z) (v : list string) (o : DataObject) : DataObject :=
  if hasOwn k o then replaceProp k v o else addProp k v o.

(** The keys visited by [for (const key in o)], in order. *)
Definition ownKeys (o : DataObject) : list Z := map fst o.

(** [lodash.get(o, `[${key}]`, [])].  lodash parses the path string: a key
    without a dot is one path segment, and the property is read; a key with a
    dot ([1.2e+21]) is split at the dot into two segments ([1] and [2e+21]),
    and the second is no property of what the first resolves to (a sequence
    of keys, or nothing).  The default is returned when the path resolves to
    [undefined]. *)
Definition lodashGet (o : DataObject) (k : Z) : list string :=
  if keyHasDot k then [] else default [] (getProp k o).

(** The representation invariant: no key occurs twice, array indices come
    first and ascend, the other keys follow.  Every object built from [{}]
    or an object literal by property writes satisfies it. *)
Fixpoint wf (o : DataObject) : bool :=
  match o with
  | [] => true
  | (k, _) :: o' =>
      negb (hasOwn k o')
      && match o' with
         | [] => true
         | (k', _) :: _ =>
             if isArrayIndex k then negb (isArrayIndex k') || (k <? k')
             else negb (isArrayIndex k')
         end
      && wf o'
  end.

End JSObject.

Import JSObject.

(** [list] (lines 117-124), the memoised merge of all pages: the value
    returned by the coordinator's getVisibleKeys().  (Named after the spec
    operation because [list] is the type of lists here.)

<<
    const _list: string[] = [];
    for (const key in dataObj) {
      const items = lodash.get(dataObj, `[${key}]`, []) as string[];
      _list.push(...items);
    }
    return _list;
>> *)
Definition getVisibleKeys (dataObj : DataObject) : list string :=
  fold_left (fun _list key => _list ++ lodashGet dataObj key) (ownKeys dataObj) [].

(* ===================================================================== *)
(** ** Records, the shared record store, the component state              *)
(* ===================================================================== *)

(** Modelled from the spec: the declaration of [TVideo] ([@/services]) is
    not part of the sources.  A record is the full item payload (title,
    cover, rating, year, type, description) with its stable key [href]. *)
Record TVideo : Type := mkVideo {
  href : string;
  title : string;
  year : string;
  cover : string;
  rating : string;
  type : string;
  description : string;
}.

(** Modelled from the spec: [useAppStore] ([@/store]) is not part of the
    sources.  Its two operations are the Result Cache of the spec:
    [updateVideoData] is put, an unconditional upsert; [getVideoData] is get,
    a lookup that is absent for a key never written.  Nothing is evicted. *)
Definition updateVideoData (key : string) (movie : TVideo)
    (store : gmap string TVideo) : gmap string TVideo :=
  <[key := movie]> store.

Definition getVideoData (key : string) (store : gmap string TVideo) : option TVideo :=
  store !! key.

(** [interface PaginationInfo]. *)
Record PaginationInfo : Type := mkPagination {
  currentPage : Z;
  totalPages : Z;
  hasMore : bool;
}.

(** The value the search service resolves to: [data.list] may be missing,
    [data.pagination] carries [currentPage] and [totalPages]. *)
Record SearchResult : Type := mkResult {
  data_list : option (list TVideo);
  data_currentPage : Z;
  data_totalPages : Z;
}.

(** The hooks of [MovieSearchPage] (lines 50-59) and the store it shares. *)
Record State : Type := mkState {
  isRefreshing : bool;
  isLoadingMore : bool;
  dataObj : DataObject;
  searchword : string;
  loading : bool;
  pagination : PaginationInfo;
  videoData : gmap string TVideo;
}.

(** The state of a freshly mounted component over a store [store]. *)
Definition initialState (store : gmap string TVideo) : State :=
  {| isRefreshing := false;
     isLoadingMore := false;
     dataObj := empty;
     searchword := EmptyString;
     loading := false;
     pagination := {| currentPage := 1; totalPages := 1; hasMore := true |};
     videoData := store |}.

(** The state setters.  [setDataObj] and [setPagination] are called with an
    updater function, which React applies to the latest state. *)
Definition setIsRefreshing (b : bool) (s : State) : State :=
  mkState b (isLoadingMore s) (dataObj s) (searchword s) (loading s) (pagination s) (videoData s).
Definition setIsLoadingMore (b : bool) (s : State) : State :=
  mkState (isRefreshing s) b (dataObj s) (searchword s) (loading s) (pagination s) (videoData s).
Definition setDataObj (f : DataObject -> DataObject) (s : State) : State :=
  mkState (isRefreshing s) (isLoadingMore s) (f (dataObj s)) (searchword s) (loading s) (pagination s) (videoData s).
Definition setSearchword (w : string) (s : State) : State :=
  mkState (isRefreshing s) (isLoadingMore s) (dataObj s) w (loading s) (pagination s) (videoData s).
Definition setLoading (b : bool) (s : State) : State :=
  mkState (isRefreshing s) (isLoadingMore s) (dataObj s) (searchword s) b (pagination s) (videoData s).
Definition setPagination (f : PaginationInfo -> PaginationInfo) (s : State) : State :=
  mkState (isRefreshing s) (isLoadingMore s) (dataObj s) (searchword s) (loading s) (f (pagination s)) (videoData s).
Definition setVideoData (f : gmap string TVideo -> gmap string TVideo) (s : State) : State :=
  mkState (isRefreshing s) (isLoadingMore s) (dataObj s) (searchword s) (loading s) (pagination s) (f (videoData s)).

(** What a handler does besides changing the state. *)
Inductive Effect : Type :=
  | ScrollToTop                          (* flatListRef.current.scrollToOffset({offset: 0}) *)
  | Fetch (keyword : string) (page : Z)  (* ui.getVideoSearchResult(searchword, page) *)
  | LogError.                            (* console.error *)

(** The calls of the search service among the effects. *)
Fixpoint fetches (es : list Effect) : list (string * Z) :=
  match es with
  | [] => []
  | Fetch kw page :: es' => (kw, page) :: fetches es'
  | _ :: es' => fetches es'
  end.

(** How the awaited promise settles: resolved with a value (which may be
    [undefined]) or rejected. *)
Inductive Outcome : Type :=
  | Resolved (data : option SearchResult)
  | Rejected.

(* ===================================================================== *)
(** ** [getData] (lines 69-112)                                            *)
(* ===================================================================== *)

(** [!searchword]. *)
Definition isEmptyString (w : string) : bool :=
  match w with EmptyString => true | String _ _ => false end.

(** [flatListRef.current] is set exactly when the last render mounted the
    [FlatList], i.e. when it did not show the skeleton (line 217:
    [list.length === 0 && loading]). *)
Definition flatListMounted (s : State) : bool :=
  negb ((length (getVisibleKeys (dataObj s)) =? 0)%nat && loading s).

(** Lines 71-80: up to the call of the search service.  An empty keyword
    returns before the [try].  [mounted] is [flatListRef.current], the ref
    set by the last render. *)
Definition getData_call (mounted : bool) (searchword : string) (page : Z) (s : State)
    : State * list Effect :=
  if isEmptyString searchword then (s, [])
  else
    let '(s1, es) :=
      if (page <=? 1) && mounted
      then (setIsRefreshing true s, [ScrollToTop])
      else (s, []) in
    (setLoading true s1, es ++ [Fetch searchword page]).

(** [getData] called when the last render is that of the state [s]. *)
Definition getData_begin (searchword : string) (page : Z) (s : State)
    : State * list Effect :=
  getData_call (flatListMounted s) searchword page s.

(** Lines 83-85: [data.list.forEach(movie => updateVideoData(movie.href, movie))]. *)
Definition cacheMovies (movies : list TVideo) (store : gmap string TVideo)
    : gmap string TVideo :=
  fold_left (fun st movie => updateVideoData (href movie) movie st) movies store.

(** Lines 88-94: the updater handed to [setDataObj]. *)
Definition dataObjUpdater (page : Z) (movies : list TVideo) (_dataObj : DataObject)
    : DataObject :=
  if page =? 1 then setProp 1 (map href movies) empty
  else setProp page (map href movies) _dataObj.

(** Lines 97-102: the updater handed to [setPagination]. *)
Definition paginationUpdater (data : SearchResult) (prev : PaginationInfo)
    : PaginationInfo :=
  {| currentPage := data_currentPage data;
     totalPages := data_totalPages data;
     hasMore := data_currentPage data <? data_totalPages data |}.

(** Lines 81-103, the body of [if (data?.list)], as the sequence of state
    updates it performs, in program order. *)
Definition onFulfilled (page : Z) (data : option SearchResult) : list (State -> State) :=
  match data with
  | Some d =>
      match data_list d with
      | Some movies =>
          [ setVideoData (cacheMovies movies);
            setDataObj (dataObjUpdater page movies);
            setPagination (paginationUpdater d) ]
      | None => []
      end
  | None => []
  end.

(** Lines 106-109, the [finally] block. *)
Definition onFinally : list (State -> State) :=
  [ setLoading false; setIsRefreshing false ].

Definition runUpdates (fs : list (State -> State)) (s : State) : State :=
  fold_left (fun s f => f s) fs s.

(** Lines 80-109: from the settling of the promise to the end of [getData]. *)
Definition getData_settle (page : Z) (o : Outcome) (s : State) : State * list Effect :=
  match o with
  | Resolved data => (runUpdates (onFulfilled page data ++ onFinally) s, [])
  | Rejected => (runUpdates onFinally s, [LogError])
  end.

(* ===================================================================== *)
(** ** The handlers (lines 129-148)                                        *)
(* ===================================================================== *)

(** [handleRefresh]: [await getData(searchword, 1)]. *)
Definition handleRefresh_begin (s : State) : State * list Effect :=
  getData_begin (searchword s) 1 s.

Definition handleRefresh_settle (o : Outcome) (s : State) : State * list Effect :=
  getData_settle 1 o s.

(** [handleSearchSubmit]: [getData(searchword, 1)], not awaited. *)
Definition handleSearchSubmit_begin (s : State) : State * list Effect :=
  getData_begin (searchword s) 1 s.

Definition handleSearchSubmit_settle (o : Outcome) (s : State) : State * list Effect :=
  getData_settle 1 o s.

(** [handleLoadMore] up to its [await].  The handler is a closure of the
    render that created it: [isLoadingMore], [pagination] and [searchword]
    are the values of that render ([rendered]), while the setters act on the
    current state [s].  When [getData] returns without calling the service
    there is nothing to wait for and the handler runs to its end. *)
Definition handleLoadMore_call (rendered s : State) : State * list Effect :=
  if isLoadingMore rendered || negb (hasMore (pagination rendered)) then (s, [])
  else
    let s1 := setIsLoadingMore true s in
    let '(s2, es) :=
      getData_call (flatListMounted rendered) (searchword rendered)
                   (jsAdd (currentPage (pagination rendered)) 1) s1 in
    match fetches es with
    | [] => (setIsLoadingMore false s2, es)
    | _ :: _ => (s2, es)
    end.

(** [handleLoadMore] called through the handler of the render of the
    current state: the component has re-rendered since the last update. *)
Definition handleLoadMore_begin (s : State) : State * list Effect :=
  handleLoadMore_call s s.

(** [handleLoadMore] from the settling of the fetch for [page] to its end. *)
Definition handleLoadMore_settle (page : Z) (o : Outcome) (s : State) : State * list Effect :=
  let '(s1, es) := getData_settle page o s in
  (setIsLoadingMore false s1, es).

(* ===================================================================== *)
(** ** The component as a transition system                                *)
(* ===================================================================== *)

(** Which handler waits for a fetch in flight. *)
Inductive Origin : Type := ByGetData | ByLoadMore.

Record Pending : Type := mkPending {
  origin : Origin;
  request_keyword : string;
  request_page : Z;
}.

(** The component state, the fetches in flight (oldest first) and every
    effect performed so far. *)
Record System : Type := mkSystem {
  state : State;
  inflight : list Pending;
  trace : list Effect;
}.

(** The triggers of the component (lines 211, 212, 228, 235) and the
    settling of the [i]-th fetch in flight.  Fetches settle in any order. *)
Inductive Event : Type :=
  | ChangeText (w : string)      (* onChangeText = setSearchword *)
  | SubmitEditing                (* onSubmitEditing = handleSearchSubmit *)
  | PullToRefresh                (* onRefresh = handleRefresh *)
  | EndReached                   (* onEndReached = handleLoadMore *)
  | Settle (i : nat) (o : Outcome).

Definition launch (by_ : Origin) (r : State * list Effect) (sys : System) : System :=
  {| state := fst r;
     inflight := inflight sys
                 ++ map (fun '(kw, page) => mkPending by_ kw page) (fetches (snd r));
     trace := trace sys ++ snd r |}.

Definition step (e : Event) (sys : System) : System :=
  match e with
  | ChangeText w =>
      {| state := setSearchword w (state sys);
         inflight := inflight sys; trace := trace sys |}
  | SubmitEditing => launch ByGetData (handleSearchSubmit_begin (state sys)) sys
  | PullToRefresh => launch ByGetData (handleRefresh_begin (state sys)) sys
  | EndReached => launch ByLoadMore (handleLoadMore_begin (state sys)) sys
  | Settle i o =>
      match inflight sys !! i with
      | None => sys
      | Some p =>
          let r := match origin p with
                   | ByGetData => getData_settle (request_page p) o (state sys)
                   | ByLoadMore => handleLoadMore_settle (request_page p) o (state sys)
                   end in
          {| state := fst r;
             inflight := delete i (inflight sys);
             trace := trace sys ++ snd r |}
      end
  end.

Definition run (es : list Event) (sys : System) : System :=
  fold_left (fun sys e => step e sys) es sys.

Definition initialSystem (store : gmap string TVideo) : System :=
  {| state := initialState store; inflight := []; trace := [] |}.


(* ===================================================================== *)
(** ** Vocabulary of the properties                                        *)
(* ===================================================================== *)

(** The value a well-formed response resolves to. *)
Definition success (movies : list TVideo) (cur tot : Z) : Outcome :=
  Resolved (Some (mkResult (Some movies) cur tot)).

(** The page map that results from [{}] by a sequence of property writes
    [o[k] = v], first write first.  Every state of the page map arises so. *)
Definition objectOf (writes : list (Z * list string)) : DataObject :=
  fold_left (fun o w => setProp (fst w) (snd w) o) writes empty.

(** The highest page number held by the map (0 when it holds none). *)
Definition highestPage (o : DataObject) : Z := fold_right Z.max 0 (ownKeys o).

(** Every page number of the map is a page number of the data model
    ([>= 1]). *)
Definition pagesFromOne (o : DataObject) : bool :=
  forallb (fun k => 1 <=? k) (ownKeys o).

(** Every page number of the map is a page number of the data model
    ([>= 1]) and an array index ([< 2^32 - 1]). *)
Definition pagesInRange (o : DataObject) : bool :=
  forallb (fun k => (1 <=? k) && isArrayIndex k) (ownKeys o).

(** The page numbers of a sequence of writes in the order in which each was
    first written. *)
Definition creationOrder (writes : list (Z * list string)) : list Z :=
  fold_left (fun seen w => if existsb (Z.eqb (fst w)) seen then seen else seen ++ [fst w])
            writes [].

(** The numbers ascend strictly. *)
Fixpoint ascendingKeys (l : list Z) : bool :=
  match l with
  | [] => true
  | k :: l' =>
      match l' with [] => true | k' :: _ => k <? k' end && ascendingKeys l'
  end.

Definition notArrayIndex (k : Z) : bool := negb (isArrayIndex k).

(** No page number of the map is printed with a dot. *)
Definition noDots (o : DataObject) : bool :=
  forallb (fun k => negb (keyHasDot k)) (ownKeys o).

(** [PageMap[p]]: what the map holds for page [p], nothing for a page it
    does not hold. *)
Definition pageKeys (o : DataObject) (p : Z) : list string :=
  default [] (getProp p o).

(** The concatenation PageMap[1], PageMap[2], ..., PageMap[hi]. *)
Definition pagesUpTo (hi : Z) (o : DataObject) : list string :=
  concat (map (pageKeys o) (seqZ 1 hi)).

(** The keys ascend from [lo] on. *)
Fixpoint ascending (lo : Z) (o : DataObject) : Prop :=
  match o with
  | [] => True
  | (k, _) :: o' => lo <= k /\ ascending (k + 1) o'
  end.

(** [getVideoData(k)] is not absent. *)
Definition resolves (store : gmap string TVideo) (k : string) : bool :=
  match getVideoData k store with Some _ => true | None => false end.


(** What a fetch that changes nothing leaves behind: page map, cursor,
    keyword, store and visible sequence as before, [loading] and
    [isRefreshing] cleared. *)
Definition settledUnchanged (s s' : State) : Prop :=
  dataObj s' = dataObj s
  /\ pagination s' = pagination s
  /\ searchword s' = searchword s
  /\ videoData s' = videoData s
  /\ getVisibleKeys (dataObj s') = getVisibleKeys (dataObj s)
  /\ loading s' = false
  /\ isRefreshing s' = false.

(** C1 as the spec states it: for every state of the page map (page numbers
    at least 1) the visible sequence is the concatenation of the pages in
    ascending page-number order. *)
Definition list_ascends_for_every_page_map : Prop :=
  forall writes : list (Z * list string),
    pagesFromOne (objectOf writes) = true ->
    getVisibleKeys (objectOf writes)
    = pagesUpTo (highestPage (objectOf writes)) (objectOf writes).

(** C4 as the spec states it: when a loadMore() issues its fetch and a
    second loadMore() follows in immediate succession, before anything else
    happens and so through the handler of the same render, the two issue
    exactly one fetch, for currentPage + 1. *)
Definition two_loadMores_fetch_once : Prop :=
  forall s : State,
    let r1 := handleLoadMore_call s s in
    let r2 := handleLoadMore_call s (fst r1) in
    fetches (snd r1) <> [] ->
    fetches (snd r1 ++ snd r2)
    = [(searchword s, jsAdd (currentPage (pagination s)) 1)].

(** C6 as the spec states it: every successful load-more of a reachable
    state advances currentPage by exactly 1. *)
Definition loadMore_advances_by_one : Prop :=
  forall store es i p movies cur tot,
    let sys := run es (initialSystem store) in
    inflight sys !! i = Some p ->
    origin p = ByLoadMore ->
    currentPage (pagination (state (step (Settle i (success movies cur tot)) sys)))
    = currentPage (pagination (state sys)) + 1.

(* ===================================================================== *)
(** ** Sample responses and runs                                           *)
(* ===================================================================== *)

Definition movie (k : string) : TVideo := mkVideo k k "2024" "c" "8.0" "movie" "d".

Definition page_of (keys : list string) (cur tot : Z) : Outcome :=
  success (map movie keys) cur tot.

(** Search "a" (page 1 of 2), then load page 2. *)
Definition two_pages : list Event :=
  [ ChangeText "a"; SubmitEditing; Settle 0 (page_of ["k1"; "k2"] 1 2);
    EndReached; Settle 0 (page_of ["k3"; "k4"] 2 2) ].

(** Search "a", then a load-more whose fetch is rejected. *)
Definition failed_load_more : list Event :=
  [ ChangeText "a"; SubmitEditing; Settle 0 (page_of ["k1"; "k2"] 1 2);
    EndReached; Settle 0 Rejected ].

(** A service that reports page numbers beyond the array indices: page 1 is
    reported as page 2^32, so that load-more asks for page 2^32 + 1, which is
    reported as page 2^32 - 1, so that load-more asks for page 2^32. *)
Definition huge_pages : list Event :=
  [ ChangeText "a"; SubmitEditing; Settle 0 (page_of ["k1"] 4294967296 4294967299);
    EndReached; Settle 0 (page_of ["k2"] 4294967295 4294967299);
    EndReached; Settle 0 (page_of ["k3"] 4294967296 4294967299) ].

(** The page map [huge_pages] leads to, and the same pages in ascending
    order. *)
Definition huge_page_map : DataObject :=
  objectOf [(1, ["k1"]); (4294967297, ["k2"]); (4294967296, ["k3"])].

Definition huge_page_map_sorted : DataObject :=
  [(1, ["k1"]); (4294967296, ["k3"]); (4294967297, ["k2"])].

From Stdlib Require Import Ascii.

(* ===================================================================== *)
(** ** What the component renders (lines 164-249)                          *)
(* ===================================================================== *)

(** The props [renderMovieItem] passes to [Item] (lines 176-185). *)
Record ItemProps : Type := mkItem {
  item_url : string;
  item_title : string;
  item_year : string;
  item_cover : string;
  item_rating : string;
  item_type : string;
  item_description : string;
}.

(** [renderMovieItem] (lines 172-187): [null] when the store has no record
    for the key. *)
Definition renderMovieItem (store : gmap string TVideo) (item : string)
    : option ItemProps :=
  match getVideoData item store with
  | None => None
  | Some video =>
      Some (mkItem (href video) (title video) (year video) (cover video)
                   (rating video) (type video) (description video))
  end.

(** [renderListFooter] (lines 189-195): whether the footer holds the
    skeleton of [renderLoading]. *)
Definition renderListFooter (s : State) : bool := isLoadingMore s.

(** The body of the screen (lines 217-247): the full-screen skeleton, or the
    list with its data, the row rendered for each key, the state of the
    refresh control and the footer. *)
Inductive View : Type :=
  | Skeleton
  | FlatList (data : list string) (rows : list (option ItemProps))
             (refreshing : bool) (footerLoading : bool).

Definition render (s : State) : View :=
  let list_ := getVisibleKeys (dataObj s) in
  if (length list_ =? 0)%nat && loading s then Skeleton
  else FlatList list_ (map (renderMovieItem (videoData s)) list_)
                (isRefreshing s) (renderListFooter s).

(* ===================================================================== *)
(** ** [handleMoviePress] (lines 154-159)                                  *)
(* ===================================================================== *)


(** The characters [encodeURIComponent] leaves as they are: letters, digits
    and [- _ . ! ~ * ' ( )]. *)
Definition isUnreserved (c : ascii) : bool :=
  let n := N_of_ascii c in
  ((65 <=? n) && (n <=? 90) || (97 <=? n) && (n <=? 122)
   || (48 <=? n) && (n <=? 57)
   || (n =? 45) || (n =? 95) || (n =? 46) || (n =? 33) || (n =? 126)
   || (n =? 42) || (n =? 39) || (n =? 40) || (n =? 41))%N.

(** An upper-case hexadecimal digit. *)
Definition hexDigit (n : N) : ascii :=
  if (n <? 10)%N then ascii_of_N (48 + n) else ascii_of_N (55 + n).

(** [%XY] for one octet. *)
Definition percentEncode (c : ascii) : string :=
  let n := N_of_ascii c in
  String "%"%char (String (hexDigit (n / 16)) (String (hexDigit (n mod 16)) EmptyString)).

(** [encodeURIComponent] on a well-formed string, held as the octets of its
    UTF-8 encoding: an unreserved character (always a single octet) is kept,
    every other octet is escaped. *)
Fixpoint encodeURIComponent (s : string) : string :=
  match s with
  | EmptyString => EmptyString
  | String c s' =>
      String.append (if isUnreserved c then String c EmptyString else percentEncode c)
                    (encodeURIComponent s')
  end.

(** [navigation.navigate(route, { name, url })]. *)
Inductive Navigation : Type :=
  | Navigate (route : string) (name : string) (url : string).

Definition handleMoviePress (info : TVideo) : Navigation :=
  Navigate "Details" (title info) (encodeURIComponent (href info)).

(** The value of a hexadecimal digit, and the reading back of escapes; used
    to tell encoded strings apart. *)
Definition hexValue (c : ascii) : N :=
  let n := N_of_ascii c in
  (if n <? 58 then n - 48 else n - 55)%N.

Fixpoint percentDecode (s : string) : string :=
  match s with
  | String "%"%char (String h (String l s')) =>
      String (ascii_of_N (16 * hexValue h + hexValue l)) (percentDecode s')
  | String c s' => String c (percentDecode s')
  | EmptyString => EmptyString
  end.

(** The characters an encoded component is made of: the unreserved ones
    (the hexadecimal digits are among them) and [%]. *)
Definition isEncodedChar (c : ascii) : bool :=
  (isUnreserved c || (N_of_ascii c =? 37))%N.

(* ===================================================================== *)
(** ** Vocabulary of the further properties                                *)
(* ===================================================================== *)

Definition isLoadMore (p : Pending) : bool :=
  match origin p with ByLoadMore => true | ByGetData => false end.

(** The number of fetches in flight that [handleLoadMore] waits for. *)
Definition loadMoresInFlight (sys : System) : nat :=
  length (List.filter isLoadMore (inflight sys)).

(** The store holds a record for [k], and its [href] is [k]. *)
Definition keyed (store : gmap string TVideo) (k : string) : bool :=
  match getVideoData k store with
  | Some video => String.eqb (href video) k
  | None => false
  end.

(** Every visible key resolves to a record with that [href]. *)
Definition allKeyed (s : State) : bool :=
  forallb (keyed (videoData s)) (getVisibleKeys (dataObj s)).

(** The last record of a response that carries the key [k]. *)
Definition lastRecord (k : string) (movies : list TVideo) : option TVideo :=
  List.find (fun m => String.eqb (href m) k) (rev movies).

(** No event of the run is a fetch resolving with a [list]. *)
Definition isSuccess (e : Event) : bool :=
  match e with
  | Settle _ (Resolved (Some d)) =>
      match data_list d with Some _ => true | None => false end
  | _ => false
  end.

Definition noSuccess (es : list Event) : bool := forallb (fun e => negb (isSuccess e)) es.

(** Page map, cursor and store are the same in both states. *)
Definition sameResults (s s' : State) : Prop :=
  dataObj s' = dataObj s
  /\ pagination s' = pagination s
  /\ videoData s' = videoData s.

(** The service was asked with a keyword that is not empty. *)
Definition hasKeyword (r : string * Z) : bool := negb (isEmptyString (fst r)).

(** The effect is not a scroll to the top. *)
Definition keepsPosition (e : Effect) : bool :=
  match e with ScrollToTop => false | _ => true end.

(* ===================================================================== *)
(** ** The model on the scenarios of the spec                              *)
(* ===================================================================== *)

Example jsAdd_rounds :
  jsAdd 9007199254740991 1 = 9007199254740992
  /\ jsAdd 9007199254740992 1 = 9007199254740992
  /\ jsAdd 9007199254740994 1 = 9007199254740996.
Proof. repeat split. Qed.

Example keyHasDot_from_10_21 :
  keyHasDot 4294967297 = false
  /\ keyHasDot 999999999999999868928 = false
  /\ keyHasDot 1000000000000000000000 = false
  /\ keyHasDot 1200000000000000000000 = true.
Proof. repeat split. Qed.

Example list_skips_page_printed_with_dot :
  let o := objectOf [(1, ["k1"]); (1200000000000000000000, ["k2"]); (2, ["k3"])] in
  ownKeys o = [1; 2; 1200000000000000000000]
  /\ getVisibleKeys o = ["k1"; "k3"].
Proof. split; reflexivity. Qed.

Example list_two_pages :
  getVisibleKeys (setProp 2 ["k3"; "k4"] (setProp 1 ["k1"; "k2"] empty))
  = ["k1"; "k2"; "k3"; "k4"].
Proof. reflexivity. Qed.

Example list_index_keys_ascend :
  getVisibleKeys (setProp 2 ["b"] (setProp 3 ["c"] (setProp 1 ["a"] empty)))
  = ["a"; "b"; "c"].
Proof. reflexivity. Qed.

Example two_pages_visible :
  getVisibleKeys (dataObj (state (run two_pages (initialSystem ∅))))
  = ["k1"; "k2"; "k3"; "k4"].
Proof. reflexivity. Qed.

Example two_pages_fetches :
  fetches (trace (run two_pages (initialSystem ∅))) = [("a", 1); ("a", 2)].
Proof. reflexivity. Qed.

Example new_search_resets :
  getVisibleKeys (dataObj (state (run (two_pages ++
      [ ChangeText "b"; SubmitEditing; Settle 0 (page_of ["k5"] 1 1) ])
    (initialSystem ∅))))
  = ["k5"].
Proof. reflexivity. Qed.

Example double_load_more_fetches_once :
  fetches (trace (run [ ChangeText "a"; SubmitEditing;
                        Settle 0 (page_of ["k1"; "k2"] 1 2);
                        EndReached; EndReached ] (initialSystem ∅)))
  = [("a", 1); ("a", 2)].
Proof. reflexivity. Qed.

Example last_page_no_fetch :
  hasMore (pagination (state (run two_pages (initialSystem ∅)))) = false
  /\ fetches (trace (run (two_pages ++ [EndReached]) (initialSystem ∅)))
     = [("a", 1); ("a", 2)].
Proof. split; reflexivity. Qed.

Example missing_list_state :
  let s := state (run [ ChangeText "a"; SubmitEditing;
                        Settle 0 (page_of ["k1"; "k2"] 1 2);
                        EndReached;
                        Settle 0 (Resolved (Some (mkResult None 2 2))) ]
                      (initialSystem ∅)) in
  getVisibleKeys (dataObj s) = ["k1"; "k2"]
  /\ pagination s = mkPagination 1 2 true
  /\ (isRefreshing s, isLoadingMore s, loading s) = (false, false, false).
Proof. repeat split. Qed.

Example failed_load_more_state :
  let s := state (run failed_load_more (initialSystem ∅)) in
  getVisibleKeys (dataObj s) = ["k1"; "k2"]
  /\ pagination s = mkPagination 1 2 true
  /\ (isRefreshing s, isLoadingMore s, loading s) = (false, false, false).
Proof. repeat split. Qed.

Example huge_pages_reach_huge_page_map :
  dataObj (state (run huge_pages (initialSystem ∅))) = huge_page_map
  /\ ownKeys huge_page_map = [1; 4294967297; 4294967296].
Proof. split; reflexivity. Qed.

(* ===================================================================== *)
(** ** Facts about page maps                                               *)
(* ===================================================================== *)

Section DataObjectFacts.

Implicit Types (o : DataObject) (k q : Z) (v : list string).

Lemma hasOwn_getProp k o :
  hasOwn k o = match getProp k o with Some _ => true | None => false end.
Proof.
  induction o as [|[k' v'] o IH]; simpl; [done|].
  by destruct (k' =? k).
Qed.

Lemma hasOwn_false_getProp k o : hasOwn k o = false -> getProp k o = None.
Proof. rewrite hasOwn_getProp. by destruct (getProp k o). Qed.

Lemma getProp_replaceProp_eq k v o :
  hasOwn k o = true -> getProp k (replaceProp k v o) = Some v.
Proof.
  induction o as [|[k' v'] o IH]; simpl; [done|].
  destruct (k' =? k) eqn:E; simpl.
  - by rewrite Z.eqb_refl.
  - rewrite E. exact IH.
Qed.

Lemma getProp_replaceProp_ne k q v o :
  k <> q -> getProp q (replaceProp k v o) = getProp q o.
Proof.
  intros Hne. induction o as [|[k' v'] o IH]; simpl; [done|].
  destruct (k' =? k) eqn:E; simpl.
  - apply Z.eqb_eq in E. subst k'.
    by destruct (Z.eqb_spec k q).
  - by rewrite IH.
Qed.

Lemma getProp_addProp_eq k v o :
  hasOwn k o = false -> getProp k (addProp k v o) = Some v.
Proof.
  induction o as [|[k' v'] o IH]; simpl.
  - by rewrite Z.eqb_refl.
  - destruct (k' =? k) eqn:E; [done|]. intros H.
    destruct (precedes k k'); simpl.
    + by rewrite Z.eqb_refl.
    + rewrite E. by apply IH.
Qed.

Lemma getProp_addProp_ne k q v o :
  k <> q -> getProp q (addProp k v o) = getProp q o.
Proof.
  intros Hne. induction o as [|[k' v'] o IH]; simpl.
  - by destruct (Z.eqb_spec k q).
  - destruct (precedes k k'); simpl.
    + by destruct (Z.eqb_spec k q).
    + by rewrite IH.
Qed.

(** Reading back what was written. *)
Lemma getProp_setProp_eq k v o : getProp k (setProp k v o) = Some v.
Proof.
  unfold setProp. destruct (hasOwn k o) eqn:E.
  - by apply getProp_replaceProp_eq.
  - by apply getProp_addProp_eq.
Qed.

(** A write leaves every other property alone. *)
Lemma getProp_setProp_ne k q v o :
  k <> q -> getProp q (setProp k v o) = getProp q o.
Proof.
  intros Hne. unfold setProp. destruct (hasOwn k o).
  - by apply getProp_replaceProp_ne.
  - by apply getProp_addProp_ne.
Qed.

Lemma hasOwn_setProp_ne k q v o : k <> q -> hasOwn q (setProp k v o) = hasOwn q o.
Proof. intros. by rewrite !hasOwn_getProp, getProp_setProp_ne. Qed.

Lemma ownKeys_replaceProp k v o : ownKeys (replaceProp k v o) = ownKeys o.
Proof.
  induction o as [|[k' v'] o IH]; simpl; [done|].
  destruct (Z.eqb_spec k' k); simpl; congruence.
Qed.

(** [wf] looks at the keys only. *)
Lemma wf_ownKeys o1 o2 : ownKeys o1 = ownKeys o2 -> wf o1 = wf o2.
Proof.
  revert o2. induction o1 as [|[k1 v1] o1 IH]; intros [|[k2 v2] o2] Hk;
    simpl in *; try discriminate; [done|].
  injection Hk as -> Hk.
  rewrite (IH _ Hk).
  assert (Hg : hasOwn k2 o1 = hasOwn k2 o2).
  { clear IH.
    revert o2 Hk. induction o1 as [|[a b] o1 IH']; intros [|[c d] o2] Hk;
      simpl in *; try discriminate; [done|].
    injection Hk as -> Hk. by rewrite (IH' _ Hk). }
  rewrite Hg. destruct o1 as [|[a b] o1], o2 as [|[c d] o2];
    simpl in *; try discriminate; [done|].
  by injection Hk as -> _.
Qed.

Lemma wf_addProp k v o : hasOwn k o = false -> wf o = true -> wf (addProp k v o) = true.
Proof.
  induction o as [|[k' v'] o IH]; [done|].
  intros Hk Hwf. simpl in Hk.
  destruct (Z.eqb_spec k' k) as [|Hne]; [done|].
  cbn [addProp]. destruct (precedes k k') eqn:Hp.
  - change (negb (hasOwn k ((k', v') :: o))
            && (if isArrayIndex k then negb (isArrayIndex k') || (k <? k')
                else negb (isArrayIndex k'))
            && wf ((k', v') :: o) = true).
    simpl hasOwn. destruct (Z.eqb_spec k' k); [done|].
    rewrite Hk, Hwf. unfold precedes in Hp.
    destruct (isArrayIndex k); [|done]. simpl in *. by rewrite Hp.
  - simpl in Hwf. apply andb_prop in Hwf as [Hwf Hwf3].
    apply andb_prop in Hwf as [Hwf1 Hwf2].
    specialize (IH Hk Hwf3).
    change (negb (hasOwn k' (addProp k v o))
            && match addProp k v o with
               | [] => true
               | (k'', _) :: _ =>
                   if isArrayIndex k' then negb (isArrayIndex k'') || (k' <? k'')
                   else negb (isArrayIndex k'')
               end
            && wf (addProp k v o) = true).
    rewrite IH, andb_true_r.
    rewrite (hasOwn_getProp k'), getProp_addProp_ne, <- hasOwn_getProp by done.
    rewrite Hwf1. simpl. unfold precedes in Hp.
    assert (Hnew : (if isArrayIndex k' then negb (isArrayIndex k) || (k' <? k)
                    else negb (isArrayIndex k)) = true).
    { destruct (isArrayIndex k), (isArrayIndex k'); simpl in *; try done.
      destruct (Z.ltb_spec k k'); [done|]. apply Z.ltb_lt. lia. }
    destruct o as [|[k'' v''] o]; simpl; [done|].
    by destruct (precedes k k'').
Qed.

(** Property writes keep the enumeration order well formed. *)
Lemma wf_setProp k v o : wf o = true -> wf (setProp k v o) = true.
Proof.
  intros Hwf. unfold setProp. destruct (hasOwn k o) eqn:E.
  - by rewrite (wf_ownKeys _ o (ownKeys_replaceProp k v o)).
  - by apply wf_addProp.
Qed.

End DataObjectFacts.

(* ===================================================================== *)
(** ** Facts about numbers                                                 *)
(* ===================================================================== *)

(** An integer below 10^21 is printed as its digits. *)
Lemma keyHasDot_small (k : Z) :
  Z.abs k < 1000000000000000000000 -> keyHasDot k = false.
Proof.
  intros Hk. unfold keyHasDot.
  destruct (Z.leb_spec 1000000000000000000000 (Z.abs k)); [lia|done].
Qed.

Lemma keyHasDot_index (k : Z) : isArrayIndex k = true -> keyHasDot k = false.
Proof.
  unfold isArrayIndex. intros [H1%Z.leb_le H2%Z.ltb_lt]%andb_prop.
  apply keyHasDot_small. lia.
Qed.

(** Below 2^53 in absolute value, adding 1 is exact. *)
Lemma jsAdd_exact (x : Z) :
  -9007199254740992 <= x < 9007199254740992 -> jsAdd x 1 = x + 1.
Proof.
  intros Hx. unfold jsAdd, roundDouble.
  destruct (Z.ltb_spec (Z.abs (x + 1)) 9007199254740992) as [|Hge]; [done|].
  assert (x + 1 = 9007199254740992) as -> by lia. reflexivity.
Qed.

(** Rounding never takes a sum of at least 2 down to 1 or below. *)
Lemma jsAdd_above_one (x : Z) : 1 <= x -> 1 < jsAdd x 1.
Proof.
  intros Hx. unfold jsAdd, roundDouble.
  destruct (Z.ltb_spec (Z.abs (x + 1)) 9007199254740992) as [|Hge]; [lia|].
  rewrite Z.abs_eq in * by lia. rewrite Z.sgn_pos by lia.
  set (a := x + 1) in *.
  assert (Hl : 53 <= Z.log2 a).
  { change 53 with (Z.log2 9007199254740992). by apply Z.log2_le_mono. }
  set (e := Z.log2 a - 52).
  assert (He : 2 ^ 1 <= 2 ^ e) by (apply Z.pow_le_mono_r; lia).
  assert (Ha : 2 ^ e <= a).
  { transitivity (2 ^ Z.log2 a).
    - apply Z.pow_le_mono_r; lia.
    - apply Z.log2_spec. lia. }
  assert (Hq : 1 <= a / 2 ^ e).
  { apply Z.div_le_lower_bound; lia. }
  change (2 ^ 1) with 2 in He.
  destruct (a mod 2 ^ e <? 2 ^ (e - 1)); [nia|].
  destruct (2 ^ (e - 1) <? a mod 2 ^ e); [nia|].
  destruct (Z.even (a / 2 ^ e)); nia.
Qed.

(* ===================================================================== *)
(** ** The visible key sequence                                            *)
(* ===================================================================== *)

Section VisibleKeys.

Implicit Types (o : DataObject) (k q lo : Z).

Lemma fold_left_push {A B} (f : B -> list A) (ks : list B) (acc : list A) :
  fold_left (fun _list key => _list ++ f key) ks acc = acc ++ concat (map f ks).
Proof.
  revert acc. induction ks as [|k ks IH]; intros acc; simpl.
  - by rewrite app_nil_r.
  - by rewrite IH, app_assoc.
Qed.

Lemma ownKeys_hasOwn k o : k ∈ ownKeys o -> hasOwn k o = true.
Proof.
  induction o as [|[k' v'] o IH]; simpl.
  - by intros ?%elem_of_nil.
  - intros [->|H]%elem_of_cons; [by rewrite Z.eqb_refl|].
    destruct (k' =? k); [done|]. by apply IH.
Qed.

(** The loop pushes what lodash reads for each enumerated key. *)
Lemma getVisibleKeys_reads o :
  getVisibleKeys o = concat (map (lodashGet o) (ownKeys o)).
Proof. unfold getVisibleKeys. by rewrite fold_left_push. Qed.

(** A key without a dot is read as the property it names. *)
Lemma lodashGet_plain o k : keyHasDot k = false -> lodashGet o k = pageKeys o k.
Proof. intros H. unfold lodashGet. by rewrite H. Qed.

Lemma reads_noDots o :
  noDots o = true -> map (lodashGet o) (ownKeys o) = map (pageKeys o) (ownKeys o).
Proof.
  unfold noDots. rewrite forallb_forall. intros H.
  apply map_ext_in. intros k Hk. apply lodashGet_plain.
  by apply negb_true_iff, H.
Qed.

Lemma pageKeys_ownKeys o : wf o = true -> map (pageKeys o) (ownKeys o) = map snd o.
Proof.
  intros Hwf. induction o as [|[k v] o IH]; [done|].
  simpl in Hwf. apply andb_prop in Hwf as [Hwf Hwf3].
  apply andb_prop in Hwf as [Hk%negb_true_iff _].
  cbn [ownKeys map fst snd]. f_equal.
  - unfold pageKeys. simpl. by rewrite Z.eqb_refl.
  - rewrite <- (IH Hwf3). apply map_ext_in. intros q Hq.
    unfold pageKeys. simpl. destruct (Z.eqb_spec k q) as [->|]; [|done].
    apply list_elem_of_In, ownKeys_hasOwn in Hq. congruence.
Qed.

(** With no key held twice and none printed with a dot, the loop pushes
    each stored sequence once, in enumeration order. *)
Lemma getVisibleKeys_concat o :
  wf o = true -> noDots o = true -> getVisibleKeys o = concat (map snd o).
Proof.
  intros Hwf Hd. by rewrite getVisibleKeys_reads, reads_noDots, pageKeys_ownKeys.
Qed.

Lemma pagesInRange_noDots o : pagesInRange o = true -> noDots o = true.
Proof.
  unfold pagesInRange, noDots. rewrite !forallb_forall. intros H k Hk.
  apply negb_true_iff, keyHasDot_index.
  by destruct (andb_prop _ _ (H k Hk)).
Qed.

Lemma wf_ascending o lo :
  wf o = true -> pagesInRange o = true ->
  match o with [] => True | (k, _) :: _ => lo <= k end ->
  ascending lo o.
Proof.
  revert lo. induction o as [|[k v] o IH]; intros lo Hwf Hr Hlo; [done|].
  split; [done|].
  simpl in Hwf, Hr.
  apply andb_prop in Hwf as [Hwf Hwf3]. apply andb_prop in Hwf as [_ Hord].
  apply andb_prop in Hr as [Hk Hr]. apply andb_prop in Hk as [_ Hk].
  apply IH; [done..|].
  destruct o as [|[k' v'] o]; [done|].
  simpl in Hr. apply andb_prop in Hr as [Hk' _]. apply andb_prop in Hk' as [_ Hk'].
  simpl in Hk. rewrite Hk, Hk' in Hord. simpl in Hord. apply Z.ltb_lt in Hord. lia.
Qed.

Lemma ascending_getProp_None lo o q : ascending lo o -> q < lo -> getProp q o = None.
Proof.
  revert lo. induction o as [|[k v] o IH]; intros lo; simpl; [done|].
  intros [Hlo Hasc] Hq. destruct (Z.eqb_spec k q); [lia|].
  apply (IH (k + 1)); [done|lia].
Qed.

Lemma ascending_weaken lo lo' o : lo' <= lo -> ascending lo o -> ascending lo' o.
Proof. destruct o as [|[k v] o]; simpl; [done|]. intros ? [? ?]. split; [lia|done]. Qed.

Lemma concat_map_nil {A B} (f : A -> list B) (l : list A) :
  (forall x, x ∈ l -> f x = []) -> concat (map f l) = [].
Proof.
  induction l as [|x l IH]; intros H; simpl; [done|].
  rewrite (H x) by apply list_elem_of_here.
  apply IH. intros y Hy. apply H. by apply list_elem_of_further.
Qed.

(** Walking the page numbers [lo, lo+1, ..., lo+n-1] and collecting what
    the map holds for each visits the entries of an ascending map in
    order. *)
Lemma concat_pages (n : nat) lo o :
  ascending lo o ->
  Forall (fun k => k < lo + Z.of_nat n) (ownKeys o) ->
  concat (map (pageKeys o) (seqZ lo (Z.of_nat n))) = concat (map snd o).
Proof.
  revert lo o. induction n as [|n IH]; intros lo o Hasc Hhi.
  - destruct o as [|[k v] o]; [done|].
    simpl in Hasc. apply Forall_cons in Hhi as [Hk _]. simpl in Hk. lia.
  - rewrite seqZ_cons by lia.
    replace (Z.pred (Z.of_nat (S n))) with (Z.of_nat n) by lia.
    replace (Z.succ lo) with (lo + 1) by lia.
    destruct o as [|[k v] o].
    + simpl. apply concat_map_nil. by intros.
    + destruct Hasc as [Hlo Hasc]. apply Forall_cons in Hhi as [Hk Hhi].
      simpl in Hk. cbn [map concat snd].
      destruct (Z.eq_dec k lo) as [->|Hne].
      * unfold pageKeys at 1. simpl. rewrite Z.eqb_refl. simpl. f_equal.
        rewrite <- (IH (lo + 1) o); [|done|].
        -- f_equal. apply map_ext_in. intros q Hq%list_elem_of_In%elem_of_seqZ.
           unfold pageKeys. simpl. destruct (Z.eqb_spec lo q); [lia|done].
        -- eapply Forall_impl; [exact Hhi|]. simpl. intros. lia.
      * unfold pageKeys at 1. simpl. destruct (Z.eqb_spec k lo); [done|].
        rewrite (ascending_getProp_None (k + 1) o lo) by (done || lia).
        simpl. rewrite (IH (lo + 1) ((k, v) :: o)); [done| |].
        -- split; [lia|done].
        -- constructor; [simpl; lia|].
           eapply Forall_impl; [exact Hhi|]. simpl. intros. lia.
Qed.

Lemma highestPage_bound o : Forall (fun k => k <= highestPage o) (ownKeys o).
Proof.
  induction o as [|[k v] o IH]; [constructor|].
  unfold highestPage in *. simpl. constructor; [lia|].
  eapply Forall_impl; [exact IH|]. simpl. intros. lia.
Qed.

Lemma highestPage_nonneg o : 0 <= highestPage o.
Proof.
  induction o as [|[k v] o IH]; unfold highestPage in *; simpl; lia.
Qed.

End VisibleKeys.

Lemma wf_objectOf writes : wf (objectOf writes) = true.
Proof.
  unfold objectOf. generalize empty, (eq_refl : wf empty = true).
  induction writes as [|[k v] writes IH]; intros o Hwf; simpl; [done|].
  apply IH. by apply wf_setProp.
Qed.

(** On a map whose keys ascend from page 1, walking the page numbers up to
    any bound of the keys yields the stored sequences in order. *)
Lemma pagesUpTo_ascending (hi : Z) (o : DataObject) :
  0 <= hi ->
  ascending 1 o ->
  Forall (fun k => k <= hi) (ownKeys o) ->
  pagesUpTo hi o = concat (map snd o).
Proof.
  intros Hnn Hasc Hhi. unfold pagesUpTo.
  rewrite <- (Z2Nat.id hi) at 1 by done.
  apply concat_pages; [done|].
  rewrite Z2Nat.id by done.
  eapply Forall_impl; [exact Hhi|]. simpl. intros. lia.
Qed.

Lemma pagesUpTo_ext (hi : Z) (o o' : DataObject) :
  (forall q, pageKeys o q = pageKeys o' q) -> pagesUpTo hi o = pagesUpTo hi o'.
Proof. intros H. unfold pagesUpTo. by rewrite (map_ext _ _ H). Qed.

Lemma list_concat_of_wf (o : DataObject) :
  wf o = true ->
  pagesInRange o = true ->
  getVisibleKeys o = pagesUpTo (highestPage o) o.
Proof.
  intros Hwf Hr. rewrite getVisibleKeys_concat by (done || by apply pagesInRange_noDots).
  symmetry. apply pagesUpTo_ascending.
  - apply highestPage_nonneg.
  - apply wf_ascending; [done..|].
    destruct o as [|[k v] o]; [done|].
    simpl in Hr. apply andb_prop in Hr as [Hk _]. apply andb_prop in Hk as [Hk _].
    simpl in Hk. by apply Z.leb_le.
  - apply highestPage_bound.
Qed.

(* ===================================================================== *)
(** ** Dangling keys                                                       *)
(* ===================================================================== *)

Section Dangling.

Implicit Types (o : DataObject) (store : gmap string TVideo) (k : string).

Lemma getProp_ownKeys q o v : getProp q o = Some v -> In q (ownKeys o).
Proof.
  induction o as [|[k' v'] o IH]; simpl; [done|].
  destruct (Z.eqb_spec k' q); [by left|]. intros. right. by apply IH.
Qed.

(** A key is visible exactly when some page that lodash can read holds
    it. *)
Lemma visible_iff k o :
  In k (getVisibleKeys o)
  <-> exists q v, getProp q o = Some v /\ keyHasDot q = false /\ In k v.
Proof.
  unfold getVisibleKeys. rewrite fold_left_push. simpl.
  rewrite in_concat. split.
  - intros (l & Hl & Hk). apply in_map_iff in Hl as (q & <- & Hq).
    unfold lodashGet in Hk. destruct (keyHasDot q) eqn:Hd; [done|].
    destruct (getProp q o) as [v|] eqn:E; [|done].
    by exists q, v.
  - intros (q & v & Hq & Hd & Hk). exists v. split; [|done].
    apply in_map_iff. exists q. split.
    + unfold lodashGet. by rewrite Hd, Hq.
    + by eapply getProp_ownKeys.
Qed.

Lemma visible_setProp k p v o :
  In k (getVisibleKeys (setProp p v o)) -> In k v \/ In k (getVisibleKeys o).
Proof.
  rewrite !visible_iff. intros (q & w & Hq & Hd & Hk).
  destruct (Z.eq_dec p q) as [->|Hne].
  - rewrite getProp_setProp_eq in Hq. injection Hq as ->. by left.
  - rewrite getProp_setProp_ne in Hq by done. right. by exists q, w.
Qed.

Lemma resolves_updateVideoData store key m k :
  resolves store k = true -> resolves (updateVideoData key m store) k = true.
Proof.
  unfold resolves, getVideoData, updateVideoData.
  destruct (decide (key = k)) as [->|Hne].
  - by rewrite lookup_insert_eq.
  - by rewrite lookup_insert_ne.
Qed.

(** The store only grows. *)
Lemma resolves_cacheMovies_old movies store k :
  resolves store k = true -> resolves (cacheMovies movies store) k = true.
Proof.
  unfold cacheMovies. revert store.
  induction movies as [|m movies IH]; intros store H; simpl; [done|].
  apply IH. by apply resolves_updateVideoData.
Qed.


Lemma dataObjUpdater_visible k page movies o :
  In k (getVisibleKeys (dataObjUpdater page movies o)) ->
  In k (map href movies) \/ In k (getVisibleKeys o).
Proof.
  unfold dataObjUpdater. destruct (page =? 1).
  - intros [H|H]%visible_setProp; [by left|].
    by apply visible_iff in H as (q & v & Hq & _).
  - apply visible_setProp.
Qed.




Lemma getData_begin_frame kw page s :
  dataObj (fst (getData_begin kw page s)) = dataObj s
  /\ videoData (fst (getData_begin kw page s)) = videoData s
  /\ pagination (fst (getData_begin kw page s)) = pagination s
  /\ searchword (fst (getData_begin kw page s)) = searchword s.
Proof.
  unfold getData_begin, getData_call. destruct (isEmptyString kw); [done|].
  by destruct ((page <=? 1) && flatListMounted s).
Qed.

Lemma handleLoadMore_begin_frame s :
  dataObj (fst (handleLoadMore_begin s)) = dataObj s
  /\ videoData (fst (handleLoadMore_begin s)) = videoData s
  /\ pagination (fst (handleLoadMore_begin s)) = pagination s
  /\ searchword (fst (handleLoadMore_begin s)) = searchword s.
Proof.
  unfold handleLoadMore_begin, handleLoadMore_call.
  destruct (isLoadingMore s || negb (hasMore (pagination s))); [done|].
  unfold getData_call. destruct (isEmptyString (searchword s)); [done|].
  by destruct ((jsAdd (currentPage (pagination s)) 1 <=? 1)
               && flatListMounted s).
Qed.


Lemma run_snoc es e sys : run (es ++ [e]) sys = step e (run es sys).
Proof. unfold run. by rewrite fold_left_app. Qed.



End Dangling.

(* ===================================================================== *)
(** ** The enumeration order of a page map                                 *)
(* ===================================================================== *)

Section EnumerationOrder.

Implicit Types (o : DataObject) (k q : Z) (v : list string).

Lemma hasOwn_addProp k q v o : hasOwn q (addProp k v o) = (k =? q) || hasOwn q o.
Proof.
  induction o as [|[k' v'] o IH]; simpl; [by destruct (k =? q)|].
  destruct (precedes k k'); simpl; [by destruct (k =? q)|].
  rewrite IH. destruct (k' =? q), (k =? q); done.
Qed.

Lemma hasOwn_replaceProp_keys k q v o : hasOwn q (replaceProp k v o) = hasOwn q o.
Proof.
  induction o as [|[k' v'] o IH]; simpl; [done|].
  destruct (Z.eqb_spec k' k) as [->|]; simpl; [done|]. by rewrite IH.
Qed.

(** A key that is no array index is appended to the enumeration. *)
Lemma ownKeys_addProp_notArrayIndex k v o :
  isArrayIndex k = false -> ownKeys (addProp k v o) = ownKeys o ++ [k].
Proof.
  intros Hk. induction o as [|[k' v'] o IH]; simpl; [done|].
  unfold precedes. rewrite Hk. simpl. by rewrite IH.
Qed.

Lemma filter_ownKeys_addProp_out (f : Z -> bool) k v o :
  f k = false -> List.filter f (ownKeys (addProp k v o)) = List.filter f (ownKeys o).
Proof.
  intros Hk. induction o as [|[k' v'] o IH]; simpl; [by rewrite Hk|].
  destruct (precedes k k'); simpl.
  - by rewrite Hk.
  - by rewrite IH.
Qed.

Lemma filter_ownKeys_addProp_in (f : Z -> bool) k v o :
  f k = true ->
  Permutation (List.filter f (ownKeys (addProp k v o))) (k :: List.filter f (ownKeys o)).
Proof.
  intros Hk. induction o as [|[k' v'] o IH]; simpl; [by rewrite Hk|].
  destruct (precedes k k'); simpl.
  - by rewrite Hk.
  - destruct (f k'); [|done]. rewrite IH. apply perm_swap.
Qed.

Lemma creationOrder_snoc writes k v :
  creationOrder (writes ++ [(k, v)])
  = if existsb (Z.eqb k) (creationOrder writes) then creationOrder writes
    else creationOrder writes ++ [k].
Proof. unfold creationOrder. by rewrite fold_left_app. Qed.

Lemma objectOf_snoc writes k v :
  objectOf (writes ++ [(k, v)]) = setProp k v (objectOf writes).
Proof. unfold objectOf. by rewrite fold_left_app. Qed.

(** The keys of a map are the page numbers written, and those that are no
    array indices are enumerated in the order of their first write. *)
Lemma ownKeys_objectOf writes :
  (forall k, hasOwn k (objectOf writes) = existsb (Z.eqb k) (creationOrder writes))
  /\ List.filter notArrayIndex (ownKeys (objectOf writes))
     = List.filter notArrayIndex (creationOrder writes)
  /\ Permutation (List.filter isArrayIndex (ownKeys (objectOf writes)))
                 (List.filter isArrayIndex (creationOrder writes)).
Proof.
  induction writes as [|[k v] writes (Ha & Hb & Hc)] using rev_ind; [done|].
  rewrite objectOf_snoc, creationOrder_snoc. unfold setProp.
  rewrite <- (Ha k). destruct (hasOwn k (objectOf writes)) eqn:Hk.
  - rewrite ownKeys_replaceProp. split; [|done].
    intros q. by rewrite hasOwn_replaceProp_keys.
  - split; [|split].
    + intros q. rewrite hasOwn_addProp, existsb_app, Ha. simpl.
      rewrite orb_false_r, (Z.eqb_sym q k). apply orb_comm.
    + rewrite List.filter_app. simpl.
      destruct (notArrayIndex k) eqn:Hi.
      * rewrite ownKeys_addProp_notArrayIndex by (by apply negb_true_iff).
        rewrite List.filter_app. simpl. by rewrite Hi, Hb.
      * rewrite app_nil_r, <- Hb. by apply filter_ownKeys_addProp_out.
    + rewrite List.filter_app. simpl. destruct (isArrayIndex k) eqn:Hi.
      * rewrite filter_ownKeys_addProp_in by done. rewrite Hc.
        apply Permutation_cons_append.
      * rewrite app_nil_r, filter_ownKeys_addProp_out by done. exact Hc.
Qed.

Lemma wf_cons_cons k v k' v' o :
  wf ((k, v) :: (k', v') :: o)
  = negb (hasOwn k ((k', v') :: o))
    && (if isArrayIndex k then negb (isArrayIndex k') || (k <? k')
        else negb (isArrayIndex k'))
    && wf ((k', v') :: o).
Proof. reflexivity. Qed.

Lemma ownKeys_cons k v o : ownKeys ((k, v) :: o) = k :: ownKeys o.
Proof. reflexivity. Qed.

Lemma wf_notArrayIndex_tail k v o :
  wf ((k, v) :: o) = true -> isArrayIndex k = false ->
  List.filter isArrayIndex (ownKeys o) = [].
Proof.
  revert k v. induction o as [|[k' v'] o IH]; intros k v Hwf Hk; [done|].
  rewrite wf_cons_cons, Hk in Hwf.
  apply andb_prop in Hwf as [Hwf Hwf3]. apply andb_prop in Hwf as [_ Hk'%negb_true_iff].
  rewrite ownKeys_cons. cbn [List.filter]. rewrite Hk'. by apply (IH k' v').
Qed.

(** The enumeration of a well-formed map: the array indices, ascending,
    then the other keys. *)
Lemma wf_shape o :
  wf o = true ->
  ownKeys o = List.filter isArrayIndex (ownKeys o) ++ List.filter notArrayIndex (ownKeys o)
  /\ ascendingKeys (List.filter isArrayIndex (ownKeys o)) = true.
Proof.
  induction o as [|[k v] o IH]; intros Hwf; [done|].
  assert (Hwf3 : wf o = true).
  { simpl in Hwf. by apply andb_prop in Hwf as [_ ?]. }
  destruct (IH Hwf3) as [Hs Ha].
  rewrite ownKeys_cons. cbn [List.filter]. unfold notArrayIndex at 1.
  destruct (isArrayIndex k) eqn:Hk; simpl negb; cbv iota.
  - split; [simpl; f_equal; exact Hs|].
    cbn [ascendingKeys]. rewrite Ha, andb_true_r.
    destruct o as [|[k' v'] o]; [done|].
    rewrite wf_cons_cons, Hk in Hwf.
    apply andb_prop in Hwf as [Hwf _]. apply andb_prop in Hwf as [_ Ho].
    rewrite ownKeys_cons. cbn [List.filter].
    destruct (isArrayIndex k') eqn:Hk'; [by simpl in Ho|].
    by rewrite (wf_notArrayIndex_tail k' v' o Hwf3 Hk').
  - rewrite (wf_notArrayIndex_tail k v o Hwf Hk) in *. simpl in *.
    split; [f_equal; exact Hs|done].
Qed.

End EnumerationOrder.

(* ===================================================================== *)
(** ** Properties of the coordinator                                       *)
(* ===================================================================== *)

Lemma huge_page_map_lookup (q : Z) :
  pageKeys huge_page_map q = pageKeys huge_page_map_sorted q.
Proof.
  change huge_page_map
    with [(1, ["k1"]); (4294967297, ["k2"]); (4294967296, ["k3"])].
  unfold pageKeys, huge_page_map_sorted. cbn [getProp].
  destruct (Z.eqb_spec 1 q); [reflexivity|].
  destruct (Z.eqb_spec 4294967297 q), (Z.eqb_spec 4294967296 q);
    first [reflexivity | lia].
Qed.

(** The pages of [huge_page_map] in ascending page-number order. *)
Lemma huge_page_map_ascending :
  pagesUpTo 4294967297 huge_page_map = ["k1"; "k3"; "k2"].
Proof.
  rewrite (pagesUpTo_ext _ _ _ huge_page_map_lookup).
  rewrite pagesUpTo_ascending.
  - reflexivity.
  - lia.
  - simpl. lia.
  - unfold huge_page_map_sorted. simpl. repeat constructor; lia.
Qed.

(** The page map of [huge_pages] holds pages 1, 2^32 + 1 and 2^32, stored in
    that order; the last two are no array indices and are enumerated in the
    order of their creation, so the visible sequence is not in ascending
    page order. *)
Lemma list_ascends_counterexample : ~ list_ascends_for_every_page_map.
Proof.
  intros H.
  specialize (H [(1, ["k1"]); (4294967297, ["k2"]); (4294967296, ["k3"])] eq_refl).
  fold huge_page_map in H.
  assert (E1 : getVisibleKeys huge_page_map = ["k1"; "k2"; "k3"]) by reflexivity.
  assert (E2 : highestPage huge_page_map = 4294967297) by reflexivity.
  rewrite E1, E2, huge_page_map_ascending in H. discriminate H.
Qed.

(** C1 (amended).  For every state of the page map, whatever writes
    produced it, getVisibleKeys(), the [list] derivation, walks the page
    numbers in their enumeration order, which is: the page numbers that are
    array indices (0 to 2^32 - 2) in ascending order, then every other page
    number in the order in which it was first stored.  For each page number
    it appends what lodash reads: the stored key sequence of the page, in
    its stored order and with nothing removed, or nothing when the page
    number is printed with a dot (from 10^21 on, such as 1.2e+21).  So on a
    map without such page numbers the list is the concatenation of the
    stored sequences in enumeration order, and when all page numbers are at
    least 1 and below 2^32 - 1 it is exactly the concatenation of
    PageMap[1], PageMap[2], ... in ascending page-number order up to the
    highest page held. *)
Theorem list_is_ascending_concatenation (writes : list (Z * list string)) :
  let o := objectOf writes in
  let indices := List.filter isArrayIndex (ownKeys o) in
  getVisibleKeys o
    = concat (map (fun p => if keyHasDot p then [] else pageKeys o p) (ownKeys o))
  /\ ownKeys o = indices ++ List.filter notArrayIndex (creationOrder writes)
  /\ ascendingKeys indices = true
  /\ Permutation indices (List.filter isArrayIndex (creationOrder writes))
  /\ (noDots o = true -> getVisibleKeys o = concat (map (pageKeys o) (ownKeys o)))
  /\ (pagesInRange o = true -> getVisibleKeys o = pagesUpTo (highestPage o) o).
Proof.
  cbv zeta. pose proof (wf_objectOf writes) as Hwf.
  destruct (wf_shape _ Hwf) as [Hs Ha].
  destruct (ownKeys_objectOf writes) as (_ & Hb & Hc).
  split; [apply getVisibleKeys_reads|].
  split; [by rewrite <- Hb|].
  split; [done|]. split; [done|]. split.
  - intros Hd. by rewrite getVisibleKeys_reads, reads_noDots.
  - intros Hr. by apply list_concat_of_wf.
Qed.

Lemma list_is_ascending_concatenation_witness :
  let o := objectOf [(1, ["k1"; "k2"]); (3, ["k5"]); (2, ["k3"; "k1"])] in
  pagesInRange o = true
  /\ noDots o = true
  /\ getVisibleKeys o = concat (map (pageKeys o) (ownKeys o))
  /\ getVisibleKeys o = pagesUpTo (highestPage o) o
  /\ getVisibleKeys o = ["k1"; "k2"; "k3"; "k1"; "k5"].
Proof.
  pose proof (list_is_ascending_concatenation
                [(1, ["k1"; "k2"]); (3, ["k5"]); (2, ["k3"; "k1"])]) as H.
  cbv zeta in H. destruct H as (_ & _ & _ & _ & H1 & H2).
  split; [reflexivity|]. split; [reflexivity|].
  split; [exact (H1 eq_refl)|]. split; [exact (H2 eq_refl)|reflexivity].
Defined.

(** C2.  From every prior state, a successful fetch of page 1 (the page
    both submitSearch and refresh ask for) replaces the whole page map by the
    single page 1 of the response: the visible sequence is exactly the keys
    of that response and no other page is held any more. *)
Theorem search_replaces_page_map (s : State) (movies : list TVideo) (cur tot : Z) :
  let s' := fst (handleSearchSubmit_settle (success movies cur tot) s) in
  let s'' := fst (handleRefresh_settle (success movies cur tot) s) in
  fetches (snd (handleSearchSubmit_begin s))
    = (if isEmptyString (searchword s) then [] else [(searchword s, 1)])
  /\ fetches (snd (handleRefresh_begin s))
    = (if isEmptyString (searchword s) then [] else [(searchword s, 1)])
  /\ dataObj s' = [(1, map href movies)]
  /\ getVisibleKeys (dataObj s') = map href movies
  /\ dataObj s'' = [(1, map href movies)]
  /\ getVisibleKeys (dataObj s'') = map href movies.
Proof.
  assert (Hf : forall kw, fetches (snd (getData_begin kw 1 s))
               = if isEmptyString kw then [] else [(kw, 1)]).
  { intros kw. unfold getData_begin, getData_call. destruct (isEmptyString kw); [done|].
    by destruct ((1 <=? 1) && flatListMounted s). }
  assert (Hv : getVisibleKeys [(1, map href movies)] = map href movies).
  { unfold getVisibleKeys, lodashGet. simpl. done. }
  repeat split; try apply Hf; try exact Hv; reflexivity.
Qed.


(** After the search for "a" has shown page 1 of 2, two calls of the same
    handler both find [isLoadingMore] false in their closure and both ask
    for page 2. *)
Lemma two_loadMores_fetch_once_counterexample : ~ two_loadMores_fetch_once.
Proof.
  intros H.
  specialize (H (state (run [ChangeText "a"; SubmitEditing;
                             Settle 0 (page_of ["k1"; "k2"] 1 2)] (initialSystem ∅)))).
  cbv zeta in H.
  assert (Hne : fetches (snd (handleLoadMore_call
             (state (run [ChangeText "a"; SubmitEditing;
                          Settle 0 (page_of ["k1"; "k2"] 1 2)] (initialSystem ∅)))
             (state (run [ChangeText "a"; SubmitEditing;
                          Settle 0 (page_of ["k1"; "k2"] 1 2)] (initialSystem ∅)))))
           <> []) by (vm_compute; discriminate).
  specialize (H Hne). vm_compute in H. discriminate H.
Qed.

(** C4 (amended).  A call of loadMore() through the handler of a render in
    which isLoadingMore is set or hasMore is not issues no fetch and changes
    no state, whatever the current state.  So when a call of loadMore() has
    issued its fetch, which is one fetch for currentPage + 1, and the
    component has rendered again, a second call before that fetch settles is
    such a no-op, and the two calls together issue that one fetch.  After a
    response that reports currentPage = totalPages, and the render that
    follows it, loadMore() issues no fetch. *)
Theorem loadMore_guard
    (rendered s : State) (page : Z) (movies : list TVideo) (tot : Z) :
  (isLoadingMore rendered || negb (hasMore (pagination rendered)) = true ->
   handleLoadMore_call rendered s = (s, []))
  /\ (fetches (snd (handleLoadMore_begin s)) <> [] ->
      let r1 := handleLoadMore_begin s in
      let r2 := handleLoadMore_begin (fst r1) in
      fetches (snd r1) = [(searchword s, jsAdd (currentPage (pagination s)) 1)]
      /\ isLoadingMore (fst r1) = true
      /\ r2 = (fst r1, [])
      /\ fetches (snd r1 ++ snd r2)
         = [(searchword s, jsAdd (currentPage (pagination s)) 1)])
  /\ (let s' := fst (getData_settle page (success movies tot tot) s) in
      hasMore (pagination s') = false
      /\ handleLoadMore_begin s' = (s', []))
  /\ (let s' := fst (handleLoadMore_settle page (success movies tot tot) s) in
      hasMore (pagination s') = false
      /\ handleLoadMore_begin s' = (s', [])).
Proof.
  split; [|split; [|split]].
  - intros H. unfold handleLoadMore_call. by rewrite H.
  - unfold handleLoadMore_begin, handleLoadMore_call.
    destruct (isLoadingMore s) eqn:Hl; [done|].
    destruct (hasMore (pagination s)) eqn:Hm; [|done]. simpl.
    unfold getData_call.
    destruct (isEmptyString (searchword s)) eqn:Hk; [done|].
    intros _.
    destruct ((jsAdd (currentPage (pagination s)) 1 <=? 1)
              && flatListMounted s); simpl; done.
  - cbv zeta. simpl. rewrite Z.ltb_irrefl. split; [done|].
    unfold handleLoadMore_begin, handleLoadMore_call. simpl. rewrite Z.ltb_irrefl.
    by destruct (isLoadingMore s).
  - cbv zeta. simpl. rewrite Z.ltb_irrefl. split; [done|].
    unfold handleLoadMore_begin, handleLoadMore_call. simpl. by rewrite Z.ltb_irrefl.
Qed.

Lemma loadMore_guard_witness :
  let s := state (run [ChangeText "a"; SubmitEditing;
                       Settle 0 (page_of ["k1"; "k2"] 1 2)] (initialSystem ∅)) in
  let busy := fst (handleLoadMore_begin s) in
  isLoadingMore busy = true
  /\ handleLoadMore_call busy busy = (busy, [])
  /\ fetches (snd (handleLoadMore_begin s) ++ snd (handleLoadMore_begin busy)) = [("a", 2)].
Proof.
  cbv zeta.
  set (s := state (run [ChangeText "a"; SubmitEditing;
                        Settle 0 (page_of ["k1"; "k2"] 1 2)] (initialSystem ∅))).
  assert (Hne : fetches (snd (handleLoadMore_begin s)) <> [])
    by (vm_compute; discriminate).
  pose proof (loadMore_guard s s 2 [] 2) as (_ & H2 & _).
  specialize (H2 Hne). cbv zeta in H2.
  destruct H2 as (_ & _ & _ & H2).
  pose proof (loadMore_guard (fst (handleLoadMore_begin s)) (fst (handleLoadMore_begin s))
                2 [] 2) as (H1 & _).
  specialize (H1 eq_refl).
  split; [reflexivity|]. split; [exact H1|exact H2].
Defined.

(** C5.  When the fetch is rejected, from any state, page map, cursor and
    visible sequence are as before and the loading flags are cleared
    ([loading] and [isRefreshing] by getData, [isLoadingMore] by loadMore);
    the error is logged.  After a loadMore() whose fetch was rejected, the
    next loadMore() asks for the same keyword and the same page again. *)
Theorem failure_preserves_state (s : State) (page : Z) :
  (let r := getData_settle page Rejected s in
   settledUnchanged s (fst r) /\ isLoadingMore (fst r) = isLoadingMore s
   /\ snd r = [LogError])
  /\ (let r := handleLoadMore_settle page Rejected s in
      settledUnchanged s (fst r) /\ isLoadingMore (fst r) = false
      /\ snd r = [LogError])
  /\ (fetches (snd (handleLoadMore_begin s)) <> [] ->
      let busy := fst (handleLoadMore_begin s) in
      let failed :=
        fst (handleLoadMore_settle (jsAdd (currentPage (pagination s)) 1) Rejected busy) in
      fetches (snd (handleLoadMore_begin s))
        = [(searchword s, jsAdd (currentPage (pagination s)) 1)]
      /\ fetches (snd (handleLoadMore_begin failed))
        = [(searchword s, jsAdd (currentPage (pagination s)) 1)]
      /\ dataObj failed = dataObj s
      /\ pagination failed = pagination s).
Proof.
  split; [|split].
  - cbv zeta. simpl. unfold settledUnchanged. simpl. done.
  - cbv zeta. simpl. unfold settledUnchanged. simpl. done.
  - unfold handleLoadMore_begin, handleLoadMore_call.
    destruct (isLoadingMore s) eqn:Hl; [done|].
    destruct (hasMore (pagination s)) eqn:Hm; [|done]. simpl.
    unfold getData_call.
    destruct (isEmptyString (searchword s)) eqn:Hk; [done|].
    intros _.
    destruct ((jsAdd (currentPage (pagination s)) 1 <=? 1)
              && flatListMounted s) eqn:E1; simpl;
      rewrite Hm, Hk; simpl;
      match goal with
      | |- context [?a && flatListMounted ?st] =>
          destruct (a && flatListMounted st)
      end; simpl; done.
Qed.

Lemma failure_preserves_state_witness :
  let s := state (run [ChangeText "a"; SubmitEditing;
                       Settle 0 (page_of ["k1"; "k2"] 1 2)] (initialSystem ∅)) in
  let failed := state (run failed_load_more (initialSystem ∅)) in
  fetches (snd (handleLoadMore_begin s)) = [("a", 2)]
  /\ fetches (snd (handleLoadMore_begin failed)) = [("a", 2)]
  /\ getVisibleKeys (dataObj failed) = ["k1"; "k2"].
Proof.
  cbv zeta.
  set (s := state (run [ChangeText "a"; SubmitEditing;
                        Settle 0 (page_of ["k1"; "k2"] 1 2)] (initialSystem ∅))).
  pose proof (failure_preserves_state s 2) as (_ & _ & H).
  assert (Hne : fetches (snd (handleLoadMore_begin s)) <> []) by (vm_compute; discriminate).
  specialize (H Hne). cbv zeta in H. destruct H as (H1 & H2 & _).
  split; [exact H1|]. split; [exact H2|reflexivity].
Defined.

(** The service answers the request for page 2 with a response that reports
    page 5: the cursor goes from 1 to 5. *)
Lemma loadMore_advances_by_one_counterexample : ~ loadMore_advances_by_one.
Proof.
  intros H.
  specialize (H ∅ [ChangeText "a"; SubmitEditing; Settle 0 (page_of ["k1"] 1 9); EndReached]
                0%nat (mkPending ByLoadMore "a" 2) [movie "k2"] 5 9 eq_refl eq_refl).
  vm_compute in H. discriminate H.
Qed.

(** C6 (amended).  After every successful fetch currentPage is the
    currentPage the response reports (and totalPages, hasMore follow the
    response).  A load-more asks for the sum currentPage + 1, which is exact
    while currentPage is below 2^53 in absolute value.  So from such a
    cursor, when the response reports the page that was asked for, a
    successful load-more advances currentPage by exactly 1; and when the
    response reports page 1, a successful search or refresh sets it to 1.  A
    rejected fetch and a response without a list leave the cursor as it
    is. *)
Theorem currentPage_follows_response
    (s : State) (page : Z) (movies : list TVideo) (cur tot : Z) :
  pagination (fst (getData_settle page (success movies cur tot) s))
    = mkPagination cur tot (cur <? tot)
  /\ pagination (fst (handleLoadMore_settle page (success movies cur tot) s))
    = mkPagination cur tot (cur <? tot)
  /\ (-9007199254740992 <= currentPage (pagination s) < 9007199254740992 ->
      fetches (snd (handleLoadMore_begin s)) <> [] ->
      let busy := fst (handleLoadMore_begin s) in
      let asked := currentPage (pagination s) + 1 in
      fetches (snd (handleLoadMore_begin s)) = [(searchword s, asked)]
      /\ currentPage (pagination busy) = currentPage (pagination s)
      /\ currentPage (pagination
           (fst (handleLoadMore_settle asked (success movies asked tot) busy)))
         = currentPage (pagination s) + 1)
  /\ currentPage (pagination (fst (handleSearchSubmit_settle (success movies 1 tot) s))) = 1
  /\ currentPage (pagination (fst (handleRefresh_settle (success movies 1 tot) s))) = 1
  /\ pagination (fst (getData_settle page Rejected s)) = pagination s
  /\ pagination (fst (getData_settle page (Resolved None) s)) = pagination s
  /\ pagination (fst (getData_settle page (Resolved (Some (mkResult None cur tot))) s))
    = pagination s.
Proof.
  split; [done|]. split; [done|]. split; [|repeat split].
  intros Hc. rewrite <- (jsAdd_exact _ Hc).
  unfold handleLoadMore_begin, handleLoadMore_call.
  destruct (isLoadingMore s) eqn:Hl; [done|].
  destruct (hasMore (pagination s)) eqn:Hm; [|done]. simpl.
  unfold getData_call.
  destruct (isEmptyString (searchword s)) eqn:Hk; [done|].
  intros _.
  destruct ((jsAdd (currentPage (pagination s)) 1 <=? 1)
            && flatListMounted s); simpl; done.
Qed.

Lemma currentPage_follows_response_witness :
  let s := state (run [ChangeText "a"; SubmitEditing;
                       Settle 0 (page_of ["k1"; "k2"] 1 2)] (initialSystem ∅)) in
  fetches (snd (handleLoadMore_begin s)) = [("a", 2)]
  /\ currentPage (pagination (fst (handleLoadMore_settle 2 (success [movie "k3"] 2 2)
                                     (fst (handleLoadMore_begin s)))))
     = 1 + 1.
Proof.
  cbv zeta.
  set (s := state (run [ChangeText "a"; SubmitEditing;
                        Settle 0 (page_of ["k1"; "k2"] 1 2)] (initialSystem ∅))).
  pose proof (currentPage_follows_response s 2 [movie "k3"] 2 2) as (_ & _ & H & _).
  assert (Hc : -9007199254740992 <= currentPage (pagination s) < 9007199254740992)
    by (vm_compute; split; [discriminate|reflexivity]).
  assert (Hne : fetches (snd (handleLoadMore_begin s)) <> [])
    by (vm_compute; discriminate).
  specialize (H Hc Hne). cbv zeta in H. destruct H as (H1 & _ & H2).
  split; [exact H1|exact H2].
Defined.

(** C7.  A response without a [list] (or no response value at all) is a
    soft no-op from every state: page map, cursor and visible sequence are
    unchanged, nothing is logged or raised, and the loading flags are
    cleared. *)
Theorem missing_list_is_soft_noop (s : State) (page : Z) (cur tot : Z) :
  let no_list := Resolved (Some (mkResult None cur tot)) in
  (let r := getData_settle page no_list s in
   settledUnchanged s (fst r) /\ snd r = [])
  /\ (let r := getData_settle page (Resolved None) s in
      settledUnchanged s (fst r) /\ snd r = [])
  /\ (let r := handleLoadMore_settle page no_list s in
      settledUnchanged s (fst r) /\ isLoadingMore (fst r) = false /\ snd r = [])
  /\ (let r := handleLoadMore_settle page (Resolved None) s in
      settledUnchanged s (fst r) /\ isLoadingMore (fst r) = false /\ snd r = []).
Proof. cbv zeta. unfold settledUnchanged. simpl. done. Qed.

(** C8.  For every page p > 1 and every state, a successful fetch for page
    p stores the keys of the response as PageMap[p] and leaves what is stored
    for every other page as it was. *)
Theorem later_page_writes_only_its_entry
    (s : State) (p : Z) (movies : list TVideo) (cur tot : Z) :
  1 < p ->
  let s' := fst (getData_settle p (success movies cur tot) s) in
  getProp p (dataObj s') = Some (map href movies)
  /\ (forall q, q <> p -> getProp q (dataObj s') = getProp q (dataObj s))
  /\ dataObj (fst (handleLoadMore_settle p (success movies cur tot) s)) = dataObj s'.
Proof.
  intros Hp. cbv zeta. simpl. unfold dataObjUpdater.
  destruct (Z.eqb_spec p 1); [lia|].
  split; [apply getProp_setProp_eq|]. split; [|done].
  intros q Hq. by apply getProp_setProp_ne.
Qed.

Lemma later_page_writes_only_its_entry_witness :
  let s := state (run two_pages (initialSystem ∅)) in
  let s' := fst (getData_settle 2 (success [movie "k9"] 2 2) s) in
  getProp 2 (dataObj s') = Some ["k9"]
  /\ getProp 1 (dataObj s') = Some ["k1"; "k2"].
Proof.
  cbv zeta.
  pose proof (later_page_writes_only_its_entry
                (state (run two_pages (initialSystem ∅))) 2 [movie "k9"] 2 2) as H.
  assert (Hp : 1 < 2) by lia.
  specialize (H Hp). cbv zeta in H. destruct H as (H1 & H2 & _).
  split; [exact H1|].
  assert (Hq : 1 <> 2) by lia.
  rewrite (H2 1 Hq). reflexivity.
Defined.

(** C9.  From every state refresh() and submitSearch do the same: the same
    state change and the same fetch, for the current keyword and page 1, and
    the same update when that fetch settles; the events are the same
    transformer of the whole system.  With an empty keyword refresh() does
    nothing. *)
Theorem refresh_is_submitSearch (s : State) (out : Outcome) (sys : System) :
  handleRefresh_begin s = handleSearchSubmit_begin s
  /\ handleRefresh_begin s = getData_begin (searchword s) 1 s
  /\ handleRefresh_settle out s = handleSearchSubmit_settle out s
  /\ step PullToRefresh sys = step SubmitEditing sys
  /\ handleRefresh_begin (setSearchword EmptyString s) = (setSearchword EmptyString s, [])
  /\ handleSearchSubmit_begin (setSearchword EmptyString s) = (setSearchword EmptyString s, []).
Proof. repeat split. Qed.

(** C10.  A response whose [list] is present and empty is a success, not a
    soft no-op: the entry of the fetched page becomes the empty sequence
    (for page 1 the whole map becomes the single empty page 1) and
    currentPage, totalPages and hasMore are taken from the pagination
    metadata of the response. *)
Theorem empty_list_is_success (s : State) (page : Z) (cur tot : Z) :
  let s' := fst (getData_settle page (success [] cur tot) s) in
  getProp page (dataObj s') = Some []
  /\ dataObj (fst (getData_settle 1 (success [] cur tot) s)) = [(1, [])]
  /\ getVisibleKeys (dataObj (fst (getData_settle 1 (success [] cur tot) s))) = []
  /\ pagination s' = mkPagination cur tot (cur <? tot)
  /\ currentPage (pagination s') = cur
  /\ totalPages (pagination s') = tot
  /\ hasMore (pagination s') = (cur <? tot)
  /\ loading s' = false.
Proof.
  cbv zeta. simpl. repeat split.
  unfold dataObjUpdater. destruct (Z.eqb_spec page 1) as [->|]; simpl.
  - reflexivity.
  - apply getProp_setProp_eq.
Qed.

(* ===================================================================== *)
(** ** Navigation to the detail page                                       *)
(* ===================================================================== *)

Example encodeURIComponent_path :
  encodeURIComponent "/v/a b?x=1&y=~(z)" = "%2Fv%2Fa%20b%3Fx%3D1%26y%3D~(z)".
Proof. reflexivity. Qed.

Lemma percentDecode_escape (c : ascii) (rest : string) :
  percentDecode
    (String.append (if isUnreserved c then String c EmptyString else percentEncode c) rest)
  = String c (percentDecode rest).
Proof.
  destruct c as [[] [] [] [] [] [] [] []]; reflexivity.
Qed.

(** Reading the escapes back gives the string that was encoded. *)
Lemma percentDecode_encodeURIComponent (s : string) :
  percentDecode (encodeURIComponent s) = s.
Proof.
  induction s as [|c s IH]; [reflexivity|].
  cbn [encodeURIComponent]. rewrite percentDecode_escape. by rewrite IH.
Qed.

Lemma forallb_string_app (f : ascii -> bool) (a b : string) :
  forallb f (String.list_ascii_of_string (String.append a b))
  = forallb f (String.list_ascii_of_string a) && forallb f (String.list_ascii_of_string b).
Proof.
  induction a as [|c a IH]; simpl; [done|].
  by rewrite IH, andb_assoc.
Qed.

Lemma escape_isEncodedChar (c : ascii) :
  forallb isEncodedChar
    (String.list_ascii_of_string (if isUnreserved c then String c EmptyString else percentEncode c))
  = true.
Proof.
  destruct c as [[] [] [] [] [] [] [] []]; reflexivity.
Qed.

(** Two records are sent to the same route parameters only if they have
    the same title and the same href: the escaping of the href loses
    nothing. *)
Theorem handleMoviePress_tells_records_apart (a b : TVideo) :
  handleMoviePress a = handleMoviePress b ->
  title a = title b /\ href a = href b.
Proof.
  unfold handleMoviePress. intros H. injection H as Ht Hu.
  split; [done|].
  rewrite <- (percentDecode_encodeURIComponent (href a)), Hu.
  apply percentDecode_encodeURIComponent.
Qed.

Lemma handleMoviePress_tells_records_apart_witness :
  let a := mkVideo "/v/1 2" "T" "2023" "c1" "7.0" "movie" "d1" in
  let b := mkVideo "/v/1 2" "T" "2024" "c2" "8.0" "tv" "d2" in
  title a = title b /\ href a = href b.
Proof.
  apply (handleMoviePress_tells_records_apart
           (mkVideo "/v/1 2" "T" "2023" "c1" "7.0" "movie" "d1")
           (mkVideo "/v/1 2" "T" "2024" "c2" "8.0" "tv" "d2")).
  reflexivity.
Defined.

(** Whatever the href, the detail page is opened on the route Details with
    the title as name and a [url] that consists of unreserved characters and
    [%] only: no [/ ? # & = +], space or octet above 127 is left in it. *)
Theorem handleMoviePress_url_is_escaped (info : TVideo) :
  exists url,
    handleMoviePress info = Navigate "Details" (title info) url
    /\ forallb isEncodedChar (String.list_ascii_of_string url) = true.
Proof.
  exists (encodeURIComponent (href info)). split; [done|].
  induction (href info) as [|c s IH]; [done|].
  cbn [encodeURIComponent]. by rewrite forallb_string_app, escape_isEncodedChar, IH.
Qed.

(* ===================================================================== *)
(** ** More on page maps                                                   *)
(* ===================================================================== *)

Section MorePageMaps.

Implicit Types (o : DataObject) (k q p : Z) (v : list string).

Lemma hasOwn_replaceProp k q v o : hasOwn q (replaceProp k v o) = hasOwn q o.
Proof.
  induction o as [|[k' v'] o IH]; simpl; [done|].
  destruct (Z.eqb_spec k' k) as [->|]; simpl; [done|]. by rewrite IH.
Qed.

Lemma hasOwn_addProp_eq k v o : hasOwn k (addProp k v o) = true.
Proof.
  induction o as [|[k' v'] o IH]; simpl; [by rewrite Z.eqb_refl|].
  destruct (precedes k k'); simpl; [by rewrite Z.eqb_refl|].
  by destruct (k' =? k).
Qed.

Lemma replaceProp_replaceProp k v1 v2 o :
  replaceProp k v2 (replaceProp k v1 o) = replaceProp k v2 o.
Proof.
  induction o as [|[k' v'] o IH]; simpl; [done|].
  destruct (Z.eqb_spec k' k) as [->|Hne]; simpl.
  - by rewrite Z.eqb_refl.
  - destruct (Z.eqb_spec k' k); [done|]. by rewrite IH.
Qed.

Lemma replaceProp_addProp k v1 v2 o :
  hasOwn k o = false -> replaceProp k v2 (addProp k v1 o) = addProp k v2 o.
Proof.
  induction o as [|[k' v'] o IH]; simpl.
  - by rewrite Z.eqb_refl.
  - destruct (Z.eqb_spec k' k) as [|Hne]; [done|]. intros Hk.
    destruct (precedes k k'); simpl.
    + by rewrite Z.eqb_refl.
    + destruct (Z.eqb_spec k' k); [done|]. by rewrite IH.
Qed.

(** Writing a property twice is writing it once: the last value stays and
    the key keeps its place. *)
Lemma setProp_setProp k v1 v2 o : setProp k v2 (setProp k v1 o) = setProp k v2 o.
Proof.
  unfold setProp at 2 3. destruct (hasOwn k o) eqn:E.
  - unfold setProp. rewrite hasOwn_replaceProp, E. apply replaceProp_replaceProp.
  - unfold setProp. rewrite hasOwn_addProp_eq. by apply replaceProp_addProp.
Qed.

Lemma hasOwn_true_getProp k o : hasOwn k o = true -> exists v, getProp k o = Some v.
Proof. rewrite hasOwn_getProp. destruct (getProp k o); [eauto|done]. Qed.

Lemma In_ownKeys_setProp k q v o :
  In q (ownKeys (setProp k v o)) -> q = k \/ In q (ownKeys o).
Proof.
  intros Hq. destruct (Z.eq_dec q k) as [|Hne]; [by left|]. right.
  apply list_elem_of_In, ownKeys_hasOwn in Hq.
  rewrite hasOwn_setProp_ne in Hq by done.
  apply hasOwn_true_getProp in Hq as [w Hw]. by eapply getProp_ownKeys.
Qed.

Lemma pagesInRange_setProp k v o :
  1 <= k < 4294967295 -> pagesInRange o = true -> pagesInRange (setProp k v o) = true.
Proof.
  intros Hk Ho. unfold pagesInRange in *. rewrite forallb_forall in *.
  intros q [->|Hq]%In_ownKeys_setProp; [|by apply Ho].
  unfold isArrayIndex. apply andb_true_intro. split.
  - apply Z.leb_le. lia.
  - apply andb_true_intro. split; [apply Z.leb_le|apply Z.ltb_lt]; lia.
Qed.

(** Two ascending maps that hold the same value for every key are the same
    map. *)
Lemma ascending_ext lo o1 o2 :
  ascending lo o1 -> ascending lo o2 ->
  (forall q, getProp q o1 = getProp q o2) -> o1 = o2.
Proof.
  revert lo o2. induction o1 as [|[k1 v1] o1 IH]; intros lo [|[k2 v2] o2] H1 H2 Hext.
  - done.
  - specialize (Hext k2). simpl in Hext. by rewrite Z.eqb_refl in Hext.
  - specialize (Hext k1). simpl in Hext. by rewrite Z.eqb_refl in Hext.
  - destruct H1 as [Hlo1 H1], H2 as [Hlo2 H2].
    assert (k1 = k2) as <-.
    { destruct (Z.lt_trichotomy k1 k2) as [Hlt|[Heq|Hgt]]; [|done|].
      - specialize (Hext k1). simpl in Hext. rewrite Z.eqb_refl in Hext.
        destruct (Z.eqb_spec k2 k1); [lia|].
        by rewrite (ascending_getProp_None (k2 + 1) o2 k1) in Hext by (done || lia).
      - specialize (Hext k2). simpl in Hext. rewrite Z.eqb_refl in Hext.
        destruct (Z.eqb_spec k1 k2); [lia|].
        by rewrite (ascending_getProp_None (k1 + 1) o1 k2) in Hext by (done || lia). }
    assert (v1 = v2) as <-.
    { specialize (Hext k1). simpl in Hext. rewrite Z.eqb_refl in Hext. congruence. }
    f_equal. apply (IH (k1 + 1)); [done..|].
    intros q. destruct (Z.eq_dec k1 q) as [<-|Hne].
    + by rewrite !(ascending_getProp_None (k1 + 1) _ k1) by (done || lia).
    + specialize (Hext q). simpl in Hext. by destruct (Z.eqb_spec k1 q).
Qed.

Lemma wf_ext o1 o2 :
  wf o1 = true -> wf o2 = true ->
  pagesInRange o1 = true -> pagesInRange o2 = true ->
  (forall q, getProp q o1 = getProp q o2) -> o1 = o2.
Proof.
  intros W1 W2 R1 R2 Hext.
  assert (A : forall o, wf o = true -> pagesInRange o = true -> ascending 1 o).
  { intros o W R. apply wf_ascending; [done..|].
    destruct o as [|[k v] o]; [done|].
    simpl in R. apply andb_prop in R as [Hk _]. apply andb_prop in Hk as [Hk _].
    simpl in Hk. by apply Z.leb_le. }
  eapply ascending_ext; eauto.
Qed.

(** Writes to two different array-index pages commute. *)
Lemma setProp_comm p q vp vq o :
  wf o = true -> pagesInRange o = true ->
  1 <= p < 4294967295 -> 1 <= q < 4294967295 -> p <> q ->
  setProp q vq (setProp p vp o) = setProp p vp (setProp q vq o).
Proof.
  intros W R Hp Hq Hne.
  apply wf_ext; try by repeat apply wf_setProp.
  - by repeat apply pagesInRange_setProp.
  - by repeat apply pagesInRange_setProp.
  - intros k. destruct (Z.eq_dec k p) as [->|Hkp].
    + rewrite (getProp_setProp_ne q p) by lia.
      by rewrite !getProp_setProp_eq.
    + rewrite (getProp_setProp_ne p k vp (setProp q vq o)) by lia.
      destruct (Z.eq_dec k q) as [->|Hkq].
      * by rewrite !getProp_setProp_eq.
      * rewrite !(getProp_setProp_ne q k) by lia.
        by rewrite (getProp_setProp_ne p k) by lia.
Qed.

End MorePageMaps.

Lemma wf_dataObjUpdater page movies o :
  wf o = true -> wf (dataObjUpdater page movies o) = true.
Proof.
  intros W. unfold dataObjUpdater. destruct (page =? 1); [done|]. by apply wf_setProp.
Qed.

Lemma run_invariant (P : System -> Prop) :
  (forall store, P (initialSystem store)) ->
  (forall e sys, P sys -> P (step e sys)) ->
  forall store es, P (run es (initialSystem store)).
Proof.
  intros H0 Hs store es. induction es as [|e es IH] using rev_ind; [apply H0|].
  rewrite run_snoc. by apply Hs.
Qed.

Lemma step_state e sys :
  match e with
  | ChangeText w => state (step e sys) = setSearchword w (state sys)
  | SubmitEditing | PullToRefresh =>
      state (step e sys) = fst (getData_begin (searchword (state sys)) 1 (state sys))
  | EndReached => state (step e sys) = fst (handleLoadMore_begin (state sys))
  | Settle i out =>
      state (step e sys) = state sys
      \/ exists page, state (step e sys) = fst (getData_settle page out (state sys))
                      \/ state (step e sys) = fst (handleLoadMore_settle page out (state sys))
  end.
Proof.
  destruct e as [w| | | |i out]; simpl; try done.
  destruct (inflight sys !! i) as [p|]; [|by left].
  right. exists (request_page p). simpl. destruct (origin p); [by left|by right].
Qed.

Lemma settle_dataObj page out s :
  dataObj (fst (getData_settle page out s)) = dataObj s
  \/ exists movies, dataObj (fst (getData_settle page out s))
                    = dataObjUpdater page movies (dataObj s).
Proof.
  destruct out as [[[[movies|] cur tot]|]|]; try by left.
  right. by exists movies.
Qed.

Lemma handleLoadMore_settle_fst page out s :
  fst (handleLoadMore_settle page out s)
  = setIsLoadingMore false (fst (getData_settle page out s)).
Proof. unfold handleLoadMore_settle. by destruct (getData_settle page out s). Qed.

(** The page map of the component is always a well-formed object. *)
Lemma wf_reachable store es : wf (dataObj (state (run es (initialSystem store)))) = true.
Proof.
  apply (run_invariant (fun sys => wf (dataObj (state sys)) = true)); [done|].
  intros e sys W. pose proof (step_state e sys) as H.
  destruct e as [w| | | |i out].
  - by rewrite H.
  - rewrite H. by destruct (getData_begin_frame (searchword (state sys)) 1 (state sys)) as [-> _].
  - rewrite H. by destruct (getData_begin_frame (searchword (state sys)) 1 (state sys)) as [-> _].
  - rewrite H. by destruct (handleLoadMore_begin_frame (state sys)) as [-> _].
  - destruct H as [->|[page [->| ->]]]; [done| |].
    + destruct (settle_dataObj page out (state sys)) as [->|[m ->]]; [done|].
      by apply wf_dataObjUpdater.
    + rewrite handleLoadMore_settle_fst. simpl.
      destruct (settle_dataObj page out (state sys)) as [->|[m ->]]; [done|].
      by apply wf_dataObjUpdater.
Qed.

(* ===================================================================== *)
(** ** How the handlers start and how fetches settle                       *)
(* ===================================================================== *)

Lemma fetches_app (a b : list Effect) : fetches (a ++ b) = fetches a ++ fetches b.
Proof.
  induction a as [|[| |] a IH]; simpl; [done|done| |done]. by rewrite IH.
Qed.

(** [getData] with an empty keyword does nothing; otherwise it asks the
    service once, for that keyword and page, sets [loading] and leaves
    [isLoadingMore] alone. *)
Lemma getData_begin_cases kw page s :
  (isEmptyString kw = true /\ getData_begin kw page s = (s, []))
  \/ (isEmptyString kw = false
      /\ fetches (snd (getData_begin kw page s)) = [(kw, page)]
      /\ loading (fst (getData_begin kw page s)) = true
      /\ isLoadingMore (fst (getData_begin kw page s)) = isLoadingMore s).
Proof.
  unfold getData_begin, getData_call. destruct (isEmptyString kw); [by left|]. right.
  by destruct ((page <=? 1) && flatListMounted s).
Qed.

(** [handleLoadMore] either does nothing at all, or finds the guard open and
    a keyword present, and then asks for the page after the cursor. *)
Lemma handleLoadMore_begin_cases s :
  ((isLoadingMore s || negb (hasMore (pagination s)) || isEmptyString (searchword s)) = true
   /\ handleLoadMore_begin s = (s, []))
  \/ (isLoadingMore s = false
      /\ hasMore (pagination s) = true
      /\ isEmptyString (searchword s) = false
      /\ fetches (snd (handleLoadMore_begin s))
         = [(searchword s, jsAdd (currentPage (pagination s)) 1)]
      /\ loading (fst (handleLoadMore_begin s)) = true
      /\ isLoadingMore (fst (handleLoadMore_begin s)) = true).
Proof.
  unfold handleLoadMore_begin, handleLoadMore_call.
  destruct (isLoadingMore s) eqn:Hl; [by left|].
  destruct (hasMore (pagination s)) eqn:Hm; [|by left]. simpl.
  unfold getData_call.
  destruct (isEmptyString (searchword s)) eqn:Hk.
  - left. split; [done|]. simpl. destruct s. simpl in *. by subst.
  - right.
    by destruct ((jsAdd (currentPage (pagination s)) 1 <=? 1)
                 && flatListMounted s).
Qed.

(** However a fetch settles, [getData] ends with [loading] and
    [isRefreshing] cleared and with [isLoadingMore] and the keyword as they
    were. *)
Lemma getData_settle_flags page out s :
  loading (fst (getData_settle page out s)) = false
  /\ isRefreshing (fst (getData_settle page out s)) = false
  /\ isLoadingMore (fst (getData_settle page out s)) = isLoadingMore s
  /\ searchword (fst (getData_settle page out s)) = searchword s
  /\ fetches (snd (getData_settle page out s)) = [].
Proof. by destruct out as [[[[movies|] cur tot]|]|]. Qed.

Lemma settle_pagination page out s :
  pagination (fst (getData_settle page out s)) = pagination s
  \/ exists d, pagination (fst (getData_settle page out s))
               = paginationUpdater d (pagination s).
Proof.
  destruct out as [[[[movies|] cur tot]|]|]; try by left.
  right. by eexists.
Qed.

Lemma settle_videoData page out s :
  videoData (fst (getData_settle page out s)) = videoData s
  \/ exists movies, videoData (fst (getData_settle page out s))
                    = cacheMovies movies (videoData s).
Proof.
  destruct out as [[[[movies|] cur tot]|]|]; try by left.
  right. by exists movies.
Qed.

(** A fetch that does not resolve with a list changes nothing but flags. *)
Lemma settle_without_success i out s page :
  isSuccess (Settle i out) = false ->
  sameResults s (fst (getData_settle page out s))
  /\ sameResults s (fst (handleLoadMore_settle page out s)).
Proof.
  rewrite handleLoadMore_settle_fst.
  by destruct out as [[[[movies|] cur tot]|]|].
Qed.

Section InFlight.

Implicit Types (l : list Pending) (p : Pending).

Lemma filter_launched (by_ : Origin) (rs : list (string * Z)) :
  List.filter isLoadMore (map (fun '(kw, page) => mkPending by_ kw page) rs)
  = match by_ with
    | ByGetData => []
    | ByLoadMore => map (fun '(kw, page) => mkPending by_ kw page) rs
    end.
Proof.
  induction rs as [|[kw page] rs IH]; simpl; [by destruct by_|].
  rewrite IH. by destruct by_.
Qed.

Lemma filter_delete l (i : nat) p :
  l !! i = Some p ->
  length (List.filter isLoadMore l)
  = (length (List.filter isLoadMore (delete i l)) + (if isLoadMore p then 1 else 0))%nat.
Proof.
  revert i. induction l as [|a l IH]; intros [|i] H; simpl in *; try done.
  - injection H as ->. destruct (isLoadMore p); simpl; lia.
  - specialize (IH i H). destruct (isLoadMore a); simpl; lia.
Qed.

(** [isLoadingMore] is set exactly while one fetch of [handleLoadMore] is in
    flight. *)
Lemma loadMore_count store es :
  let sys := run es (initialSystem store) in
  loadMoresInFlight sys = (if isLoadingMore (state sys) then 1 else 0)%nat.
Proof.
  apply (run_invariant (fun sys =>
    loadMoresInFlight sys = (if isLoadingMore (state sys) then 1 else 0)%nat)); [done|].
  intros e sys IH. unfold loadMoresInFlight in *.
  destruct e as [w| | | |i out]; simpl.
  - exact IH.
  - unfold handleSearchSubmit_begin.
    rewrite List.filter_app, filter_launched, app_nil_r.
    by destruct (getData_begin_cases (searchword (state sys)) 1 (state sys))
      as [[_ ->]|(_ & _ & _ & ->)].
  - unfold handleRefresh_begin.
    rewrite List.filter_app, filter_launched, app_nil_r.
    by destruct (getData_begin_cases (searchword (state sys)) 1 (state sys))
      as [[_ ->]|(_ & _ & _ & ->)].
  - rewrite List.filter_app, filter_launched, length_app.
    destruct (handleLoadMore_begin_cases (state sys))
      as [[_ ->]|(Hl & _ & _ & -> & _ & ->)].
    + simpl. rewrite IH. lia.
    + rewrite IH, Hl. done.
  - destruct (inflight sys !! i) as [p|] eqn:Hp; [|exact IH]. simpl.
    rewrite (filter_delete _ _ _ Hp) in IH.
    destruct (origin p) eqn:Ho.
    + assert (Hf : isLoadMore p = false) by (unfold isLoadMore; by rewrite Ho).
      rewrite Hf in IH.
      destruct (getData_settle_flags (request_page p) out (state sys))
        as (_ & _ & -> & _).
      destruct (isLoadingMore (state sys)); lia.
    + assert (Hf : isLoadMore p = true) by (unfold isLoadMore; by rewrite Ho).
      rewrite Hf in IH.
      rewrite handleLoadMore_settle_fst. simpl.
      destruct (isLoadingMore (state sys)); lia.
Qed.

(** With nothing in flight, [loading] and [isRefreshing] are clear. *)
Lemma idle_flags store es :
  let sys := run es (initialSystem store) in
  inflight sys = [] ->
  loading (state sys) = false /\ isRefreshing (state sys) = false.
Proof.
  apply (run_invariant (fun sys =>
    inflight sys = [] ->
    loading (state sys) = false /\ isRefreshing (state sys) = false)); [done|].
  intros e sys IH. destruct e as [w| | | |i out]; simpl.
  - exact IH.
  - unfold handleSearchSubmit_begin.
    destruct (getData_begin_cases (searchword (state sys)) 1 (state sys))
      as [[_ ->]|(_ & -> & _)]; simpl.
    + rewrite app_nil_r. exact IH.
    + intros H. by destruct (inflight sys).
  - unfold handleRefresh_begin.
    destruct (getData_begin_cases (searchword (state sys)) 1 (state sys))
      as [[_ ->]|(_ & -> & _)]; simpl.
    + rewrite app_nil_r. exact IH.
    + intros H. by destruct (inflight sys).
  - destruct (handleLoadMore_begin_cases (state sys))
      as [[_ ->]|(_ & _ & _ & -> & _)]; simpl.
    + rewrite app_nil_r. exact IH.
    + intros H. by destruct (inflight sys).
  - destruct (inflight sys !! i) as [p|] eqn:Hp; [|exact IH]. simpl. intros _.
    destruct (origin p).
    + by destruct (getData_settle_flags (request_page p) out (state sys)) as (-> & -> & _).
    + rewrite handleLoadMore_settle_fst. simpl.
      by destruct (getData_settle_flags (request_page p) out (state sys)) as (-> & -> & _).
Qed.

End InFlight.

(* ===================================================================== *)
(** ** The store and the rows of the list                                  *)
(* ===================================================================== *)

Section Store.

Implicit Types (store : gmap string TVideo) (k : string) (movies : list TVideo).

Lemma cacheMovies_snoc movies m store :
  cacheMovies (movies ++ [m]) store
  = updateVideoData (href m) m (cacheMovies movies store).
Proof. unfold cacheMovies. by rewrite fold_left_app. Qed.

Lemma lastRecord_snoc k movies m :
  lastRecord k (movies ++ [m])
  = if String.eqb (href m) k then Some m else lastRecord k movies.
Proof. unfold lastRecord. by rewrite rev_unit. Qed.

Lemma cacheMovies_lookup movies store k :
  getVideoData k (cacheMovies movies store)
  = match lastRecord k movies with
    | Some m => Some m
    | None => getVideoData k store
    end.
Proof.
  induction movies as [|m movies IH] using rev_ind; [done|].
  rewrite cacheMovies_snoc, lastRecord_snoc.
  unfold getVideoData, updateVideoData in *.
  destruct (String.eqb_spec (href m) k) as [->|Hne].
  - by rewrite lookup_insert_eq.
  - by rewrite lookup_insert_ne.
Qed.

Lemma lastRecord_href k movies m : lastRecord k movies = Some m -> href m = k.
Proof.
  unfold lastRecord. intros [_ H]%find_some. by apply String.eqb_eq.
Qed.

Lemma lastRecord_None k movies : lastRecord k movies = None -> ~ In k (map href movies).
Proof.
  unfold lastRecord. intros H (m & <- & Hm)%in_map_iff.
  apply in_rev in Hm. pose proof (find_none _ _ H m Hm) as Hf. simpl in Hf.
  by rewrite String.eqb_refl in Hf.
Qed.

Lemma keyed_cacheMovies_old movies store k :
  keyed store k = true -> keyed (cacheMovies movies store) k = true.
Proof.
  unfold keyed. rewrite cacheMovies_lookup.
  destruct (lastRecord k movies) as [m|] eqn:E; [|done].
  intros _. apply String.eqb_eq. by eapply lastRecord_href.
Qed.

Lemma keyed_cacheMovies_new movies store k :
  In k (map href movies) -> keyed (cacheMovies movies store) k = true.
Proof.
  intros Hk. unfold keyed. rewrite cacheMovies_lookup.
  destruct (lastRecord k movies) as [m|] eqn:E.
  - apply String.eqb_eq. by eapply lastRecord_href.
  - by apply lastRecord_None in E.
Qed.

Lemma allKeyed_getData_settle page out s :
  allKeyed s = true -> allKeyed (fst (getData_settle page out s)) = true.
Proof.
  intros Hs. destruct out as [[[[movies|] cur tot]|]|]; try exact Hs.
  unfold allKeyed in *. simpl. rewrite forallb_forall in *.
  intros k [Hk|Hk]%dataObjUpdater_visible.
  - by apply keyed_cacheMovies_new.
  - apply keyed_cacheMovies_old. by apply Hs.
Qed.

Lemma allKeyed_frame s s' :
  dataObj s' = dataObj s -> videoData s' = videoData s -> allKeyed s' = allKeyed s.
Proof. unfold allKeyed. by intros -> ->. Qed.

(** In every state of the component each visible key has its own record. *)
Lemma allKeyed_reachable store es : allKeyed (state (run es (initialSystem store))) = true.
Proof.
  apply (run_invariant (fun sys => allKeyed (state sys) = true)); [done|].
  intros e sys IH. pose proof (step_state e sys) as H.
  destruct e as [w| | | |i out].
  - by rewrite H.
  - rewrite H.
    destruct (getData_begin_frame (searchword (state sys)) 1 (state sys)) as (Hd & Hv & _).
    by rewrite (allKeyed_frame _ _ Hd Hv).
  - rewrite H.
    destruct (getData_begin_frame (searchword (state sys)) 1 (state sys)) as (Hd & Hv & _).
    by rewrite (allKeyed_frame _ _ Hd Hv).
  - rewrite H.
    destruct (handleLoadMore_begin_frame (state sys)) as (Hd & Hv & _).
    by rewrite (allKeyed_frame _ _ Hd Hv).
  - destruct H as [->|[page [->| ->]]]; [done| |].
    + by apply allKeyed_getData_settle.
    + rewrite handleLoadMore_settle_fst.
      by apply (allKeyed_getData_settle page out).
Qed.

Lemma keyed_renderMovieItem store k :
  keyed store k = true -> item_url <$> renderMovieItem store k = Some k.
Proof.
  unfold keyed, renderMovieItem.
  destruct (getVideoData k store) as [video|]; [|done].
  intros ->%String.eqb_eq. done.
Qed.

Lemma resolves_step e sys k :
  resolves (videoData (state sys)) k = true ->
  resolves (videoData (state (step e sys))) k = true.
Proof.
  intros Hk. pose proof (step_state e sys) as H.
  destruct e as [w| | | |i out].
  - by rewrite H.
  - rewrite H.
    by destruct (getData_begin_frame (searchword (state sys)) 1 (state sys)) as (_ & -> & _).
  - rewrite H.
    by destruct (getData_begin_frame (searchword (state sys)) 1 (state sys)) as (_ & -> & _).
  - rewrite H. by destruct (handleLoadMore_begin_frame (state sys)) as (_ & -> & _).
  - destruct H as [->|[page [->| ->]]]; [done| |].
    + destruct (settle_videoData page out (state sys)) as [->|[m ->]]; [done|].
      by apply resolves_cacheMovies_old.
    + rewrite handleLoadMore_settle_fst. simpl.
      destruct (settle_videoData page out (state sys)) as [->|[m ->]]; [done|].
      by apply resolves_cacheMovies_old.
Qed.

End Store.

Lemma handleLoadMore_settle_snd page out s :
  snd (handleLoadMore_settle page out s) = snd (getData_settle page out s).
Proof. unfold handleLoadMore_settle. by destruct (getData_settle page out s). Qed.

Lemma step_trace e sys :
  exists es, trace (step e sys) = trace sys ++ es
             /\ forallb hasKeyword (fetches es) = true.
Proof.
  destruct e as [w| | | |i out]; simpl.
  - exists []. by rewrite app_nil_r.
  - eexists. split; [done|]. unfold handleSearchSubmit_begin.
    destruct (getData_begin_cases (searchword (state sys)) 1 (state sys))
      as [[_ ->]|(Hk & -> & _)]; [done|].
    simpl. unfold hasKeyword. simpl. by rewrite Hk.
  - eexists. split; [done|]. unfold handleRefresh_begin.
    destruct (getData_begin_cases (searchword (state sys)) 1 (state sys))
      as [[_ ->]|(Hk & -> & _)]; [done|].
    simpl. unfold hasKeyword. simpl. by rewrite Hk.
  - eexists. split; [done|].
    destruct (handleLoadMore_begin_cases (state sys))
      as [[_ ->]|(_ & _ & Hk & -> & _)]; [done|].
    simpl. unfold hasKeyword. simpl. by rewrite Hk.
  - destruct (inflight sys !! i) as [p|].
    + eexists. split; [done|]. simpl. destruct (origin p).
      * by destruct (getData_settle_flags (request_page p) out (state sys))
          as (_ & _ & _ & _ & ->).
      * rewrite handleLoadMore_settle_snd.
        by destruct (getData_settle_flags (request_page p) out (state sys))
          as (_ & _ & _ & _ & ->).
    + exists []. by rewrite app_nil_r.
Qed.

(* ===================================================================== *)
(** ** Further properties of the component                                 *)
(* ===================================================================== *)

(** In every state of the component at most one fetch of [handleLoadMore]
    is in flight, [isLoadingMore] is set exactly while there is one, and the
    footer of the list shows its skeleton exactly then. *)
Theorem at_most_one_loadMore_in_flight (store : gmap string TVideo) (es : list Event) :
  let sys := run es (initialSystem store) in
  (loadMoresInFlight sys <= 1)%nat
  /\ isLoadingMore (state sys) = (loadMoresInFlight sys =? 1)%nat
  /\ renderListFooter (state sys) = (loadMoresInFlight sys =? 1)%nat.
Proof.
  cbv zeta. pose proof (loadMore_count store es) as H. cbv zeta in H.
  unfold renderListFooter. rewrite H.
  by destruct (isLoadingMore (state (run es (initialSystem store)))); repeat split; try lia.
Qed.

(** Whenever no fetch is in flight the screen is the list, with the refresh
    control at rest and no skeleton in the footer: no loading flag stays set
    once every fetch has settled. *)
Theorem idle_screen_is_the_list (store : gmap string TVideo) (es : list Event) :
  let sys := run es (initialSystem store) in
  let list_ := getVisibleKeys (dataObj (state sys)) in
  inflight sys = [] ->
  (loading (state sys), isRefreshing (state sys), isLoadingMore (state sys))
    = (false, false, false)
  /\ render (state sys)
     = FlatList list_ (map (renderMovieItem (videoData (state sys))) list_) false false.
Proof.
  cbv zeta. intros Hi.
  destruct (idle_flags store es Hi) as [Hl Hr].
  pose proof (loadMore_count store es) as Hc. cbv zeta in Hc.
  unfold loadMoresInFlight in Hc. rewrite Hi in Hc. simpl in Hc.
  assert (Hm : isLoadingMore (state (run es (initialSystem store))) = false).
  { by destruct (isLoadingMore _). }
  split; [by rewrite Hl, Hr, Hm|].
  unfold render, renderListFooter. by rewrite Hl, Hr, Hm, andb_false_r.
Qed.

Lemma idle_screen_is_the_list_witness :
  render (state (run two_pages (initialSystem ∅)))
  = FlatList ["k1"; "k2"; "k3"; "k4"]
      (map (fun k => Some (mkItem k k "2024" "c" "8.0" "movie" "d"))
           ["k1"; "k2"; "k3"; "k4"])
      false false.
Proof.
  pose proof (idle_screen_is_the_list ∅ two_pages) as H. cbv zeta in H.
  destruct (H eq_refl) as [_ ->]. reflexivity.
Defined.

(** The search service is never asked with an empty keyword, whatever the
    user does. *)
Theorem service_never_asked_without_keyword (store : gmap string TVideo) (es : list Event) :
  forallb hasKeyword (fetches (trace (run es (initialSystem store)))) = true.
Proof.
  apply (run_invariant (fun sys => forallb hasKeyword (fetches (trace sys)) = true)); [done|].
  intros e sys IH. destruct (step_trace e sys) as (es' & -> & H).
  by rewrite fetches_app, forallb_app, IH, H.
Qed.

(** In every state of the component the cursor is either the initial one
    (page 1 of 1 with hasMore set) or has hasMore equal to
    currentPage < totalPages. *)
Theorem hasMore_follows_cursor (store : gmap string TVideo) (es : list Event) :
  let pg := pagination (state (run es (initialSystem store))) in
  pg = mkPagination 1 1 true
  \/ hasMore pg = (currentPage pg <? totalPages pg).
Proof.
  cbv zeta.
  apply (run_invariant (fun sys =>
    pagination (state sys) = mkPagination 1 1 true
    \/ hasMore (pagination (state sys))
       = (currentPage (pagination (state sys)) <? totalPages (pagination (state sys)))));
    [by left|].
  intros e sys IH. pose proof (step_state e sys) as H.
  destruct e as [w| | | |i out].
  - by rewrite H.
  - rewrite H.
    by destruct (getData_begin_frame (searchword (state sys)) 1 (state sys)) as (_ & _ & -> & _).
  - rewrite H.
    by destruct (getData_begin_frame (searchword (state sys)) 1 (state sys)) as (_ & _ & -> & _).
  - rewrite H. by destruct (handleLoadMore_begin_frame (state sys)) as (_ & _ & -> & _).
  - destruct H as [->|[page [->| ->]]]; [done| |].
    + destruct (settle_pagination page out (state sys)) as [->|[d ->]]; [done|by right].
    + rewrite handleLoadMore_settle_fst. simpl.
      destruct (settle_pagination page out (state sys)) as [->|[d ->]]; [done|by right].
Qed.

Lemma step_without_success e sys :
  isSuccess e = false -> sameResults (state sys) (state (step e sys)).
Proof.
  intros He. pose proof (step_state e sys) as H.
  destruct e as [w| | | |i out].
  - by rewrite H.
  - rewrite H.
    by destruct (getData_begin_frame (searchword (state sys)) 1 (state sys))
      as (? & ? & ? & _).
  - rewrite H.
    by destruct (getData_begin_frame (searchword (state sys)) 1 (state sys))
      as (? & ? & ? & _).
  - rewrite H. by destruct (handleLoadMore_begin_frame (state sys)) as (? & ? & ? & _).
  - destruct H as [->|[page [->| ->]]]; [done| |];
      by destruct (settle_without_success i out (state sys) page He).
Qed.

(** Until a fetch has resolved with a list (on a fresh mount, after failed
    or list-less searches) the page map is empty and the cursor is still
    page 1 of 1 with hasMore set; so load-more is not held back by hasMore
    and, given a keyword and no load-more in flight, asks for page 2. *)
Theorem before_first_success (store : gmap string TVideo) (es : list Event) :
  noSuccess es = true ->
  let s := state (run es (initialSystem store)) in
  dataObj s = empty
  /\ getVisibleKeys (dataObj s) = []
  /\ pagination s = mkPagination 1 1 true
  /\ videoData s = store
  /\ fetches (snd (handleLoadMore_begin s))
     = (if isLoadingMore s || isEmptyString (searchword s) then []
        else [(searchword s, 2)]).
Proof.
  intros Hn. cbv zeta.
  assert (H : sameResults (initialState store) (state (run es (initialSystem store)))).
  { induction es as [|e es IH] using rev_ind; [done|].
    unfold noSuccess in Hn. rewrite forallb_app in Hn.
    apply andb_prop in Hn as [Hn He]. simpl in He. rewrite andb_true_r in He.
    apply negb_true_iff in He.
    rewrite run_snoc.
    destruct (step_without_success e (run es (initialSystem store)) He) as (Hd & Hp & Hv).
    destruct (IH Hn) as (Hd' & Hp' & Hv').
    unfold sameResults. by rewrite Hd, Hp, Hv. }
  destruct H as (Hd & Hp & Hv). simpl in Hd, Hp, Hv.
  rewrite Hd, Hp, Hv. repeat split.
  set (s := state (run es (initialSystem store))) in *.
  destruct (handleLoadMore_begin_cases s) as [[Hg ->]|(Hl & Hm & Hk & -> & _)].
  - rewrite Hp in Hg. simpl in Hg. rewrite orb_false_r in Hg. by rewrite Hg.
  - by rewrite Hl, Hk, Hp.
Qed.

Lemma before_first_success_witness :
  let s := state (run [ChangeText "a"; SubmitEditing; Settle 0 Rejected] (initialSystem ∅)) in
  getVisibleKeys (dataObj s) = []
  /\ fetches (snd (handleLoadMore_begin s)) = [("a", 2)].
Proof.
  pose proof (before_first_success ∅ [ChangeText "a"; SubmitEditing; Settle 0 Rejected] eq_refl)
    as H.
  cbv zeta in H. destruct H as (_ & H1 & _ & _ & H2).
  split; [exact H1|exact H2].
Defined.

(** In every state of the component, [renderMovieItem] renders each visible
    key to an item (never to nothing), and the url of that item is the key
    itself. *)
Theorem visible_rows_render_their_key (store : gmap string TVideo) (es : list Event) :
  let s := state (run es (initialSystem store)) in
  map (fun item => item_url <$> renderMovieItem (videoData s) item)
      (getVisibleKeys (dataObj s))
  = map Some (getVisibleKeys (dataObj s)).
Proof.
  cbv zeta. pose proof (allKeyed_reachable store es) as H.
  unfold allKeyed in H. rewrite forallb_forall in H.
  apply map_ext_in. intros k Hk. by apply keyed_renderMovieItem, H.
Qed.

(** After the records of a response have been put into the store, the
    store holds under each key the last record of the response with that
    href, and what it held before under every other key. *)
Theorem cacheMovies_last_write_wins
    (movies : list TVideo) (store : gmap string TVideo) (k : string) :
  getVideoData k (cacheMovies movies store)
  = match lastRecord k movies with
    | Some m => Some m
    | None => getVideoData k store
    end.
Proof. apply cacheMovies_lookup. Qed.

(** No event ever removes a record: a key that resolves in the store when
    the component mounts resolves in every later state. *)
Theorem store_never_forgets (store : gmap string TVideo) (es : list Event) (k : string) :
  resolves store k = true ->
  resolves (videoData (state (run es (initialSystem store)))) k = true.
Proof.
  intros Hk. induction es as [|e es IH] using rev_ind; [done|].
  rewrite run_snoc. by apply resolves_step.
Qed.

Lemma store_never_forgets_witness :
  resolves (videoData (state (run two_pages (initialSystem {["k0" := movie "k0"]})))) "k0"
  = true.
Proof.
  apply (store_never_forgets {["k0" := movie "k0"]} two_pages "k0"). reflexivity.
Defined.

(** While the text field is empty, submit, pull-to-refresh and end-reached
    do nothing at all: no state changes, nothing is fetched, no effect is
    performed. *)
Theorem empty_keyword_disables_triggers (sys : System) :
  isEmptyString (searchword (state sys)) = true ->
  step SubmitEditing sys = sys
  /\ step PullToRefresh sys = sys
  /\ step EndReached sys = sys.
Proof.
  intros Hk.
  assert (Hg : getData_begin (searchword (state sys)) 1 (state sys) = (state sys, [])).
  { destruct (getData_begin_cases (searchword (state sys)) 1 (state sys))
      as [[_ H]|(H & _)]; [done|congruence]. }
  assert (Hm : handleLoadMore_begin (state sys) = (state sys, [])).
  { destruct (handleLoadMore_begin_cases (state sys))
      as [[_ H]|(_ & _ & H & _)]; [done|congruence]. }
  unfold step, launch, handleSearchSubmit_begin, handleRefresh_begin.
  rewrite Hg, Hm. simpl. rewrite !app_nil_r. by destruct sys.
Qed.

Lemma empty_keyword_disables_triggers_witness :
  step SubmitEditing (initialSystem ∅) = initialSystem ∅
  /\ step PullToRefresh (initialSystem ∅) = initialSystem ∅
  /\ step EndReached (initialSystem ∅) = initialSystem ∅.
Proof. apply (empty_keyword_disables_triggers (initialSystem ∅)). reflexivity. Defined.

(** Typing, submitting, pulling to refresh and reaching the end of the list
    leave page map, cursor, store and so the visible list as they are: the
    old results stay on screen until a fetch settles. *)
Theorem only_settling_changes_results (sys : System) (w : string) :
  sameResults (state sys) (state (step (ChangeText w) sys))
  /\ sameResults (state sys) (state (step SubmitEditing sys))
  /\ sameResults (state sys) (state (step PullToRefresh sys))
  /\ sameResults (state sys) (state (step EndReached sys))
  /\ getVisibleKeys (dataObj (state (step SubmitEditing sys)))
     = getVisibleKeys (dataObj (state sys))
  /\ getVisibleKeys (dataObj (state (step EndReached sys)))
     = getVisibleKeys (dataObj (state sys)).
Proof.
  assert (H : forall e, isSuccess e = false ->
                        sameResults (state sys) (state (step e sys))).
  { intros e He. by apply step_without_success. }
  repeat split; try (by apply H).
  - by destruct (H SubmitEditing eq_refl) as (-> & _).
  - by destruct (H EndReached eq_refl) as (-> & _).
Qed.

(** A successful page 1 followed by a successful later page stores both
    and shows the keys of page 1 and then the keys of the later page, whatever
    search the later response was requested for; only a later page whose
    number is printed with a dot (from 10^21 on) is stored without being
    shown. *)
Theorem first_page_then_later_page
    (s : State) (p : Z) (first later : list TVideo) (c1 t1 c2 t2 : Z) :
  1 < p ->
  let s1 := fst (getData_settle 1 (success first c1 t1) s) in
  let s2 := fst (getData_settle p (success later c2 t2) s1) in
  dataObj s2 = [(1, map href first); (p, map href later)]
  /\ getVisibleKeys (dataObj s2)
     = map href first ++ (if keyHasDot p then [] else map href later)
  /\ (p < 1000000000000000000000 ->
      getVisibleKeys (dataObj s2) = map href first ++ map href later).
Proof.
  intros Hp. cbv zeta. simpl. unfold dataObjUpdater.
  destruct (Z.eqb_spec p 1); [lia|]. rewrite Z.eqb_refl.
  assert (E : setProp p (map href later) (setProp 1 (map href first) empty)
              = [(1, map href first); (p, map href later)]).
  { unfold setProp, empty. cbn [hasOwn addProp].
    destruct (Z.eqb_spec 1 p); [lia|]. cbn [addProp].
    unfold precedes. change (isArrayIndex 1) with true.
    destruct (Z.ltb_spec p 1); [lia|].
    by rewrite andb_false_r. }
  rewrite E. split; [done|].
  assert (V : getVisibleKeys [(1, map href first); (p, map href later)]
              = map href first ++ (if keyHasDot p then [] else map href later)).
  { unfold getVisibleKeys, lodashGet, ownKeys.
    cbn [map fst fold_left getProp app].
    change (keyHasDot 1) with false. cbv iota.
    rewrite Z.eqb_refl. destruct (Z.eqb_spec 1 p); [lia|]. by rewrite Z.eqb_refl. }
  split; [exact V|].
  intros Hs. rewrite V, keyHasDot_small; [done|lia].
Qed.

Lemma first_page_then_later_page_witness :
  getVisibleKeys (dataObj (fst (getData_settle 2 (success [movie "k3"] 2 2)
    (fst (getData_settle 1 (success [movie "k1"; movie "k2"] 1 2) (initialState ∅))))))
  = ["k1"; "k2"; "k3"].
Proof.
  assert (Hp : 1 < 2) by lia.
  pose proof (first_page_then_later_page (initialState ∅) 2
                [movie "k1"; movie "k2"] [movie "k3"] 1 2 2 2 Hp) as H.
  cbv zeta in H. destruct H as (_ & _ & H). apply H. lia.
Defined.

(** A page fetched again (a retry, a repeated response) replaces what was
    stored for it and keeps its place: page map and cursor are the same as
    if only the last response had arrived. *)
Theorem refetch_overwrites_page
    (s : State) (page : Z) (old new : list TVideo) (c1 t1 c2 t2 : Z) :
  let s1 := fst (getData_settle page (success old c1 t1) s) in
  dataObj (fst (getData_settle page (success new c2 t2) s1))
    = dataObj (fst (getData_settle page (success new c2 t2) s))
  /\ pagination (fst (getData_settle page (success new c2 t2) s1))
    = pagination (fst (getData_settle page (success new c2 t2) s)).
Proof.
  cbv zeta. simpl. split; [|done]. unfold dataObjUpdater.
  destruct (page =? 1); [done|]. apply setProp_setProp.
Qed.

(** Two successful fetches of different pages above 1 (and below 2^32 - 1)
    give the same page map, and so the same visible list, in whichever order
    they settle, on a page map whose page numbers are in that range. *)
Theorem page_arrival_order_irrelevant
    (store : gmap string TVideo) (es : list Event)
    (p q : Z) (mp mq : list TVideo) (cp tp cq tq : Z) :
  let s := state (run es (initialSystem store)) in
  pagesInRange (dataObj s) = true ->
  1 < p < 4294967295 ->
  1 < q < 4294967295 ->
  p <> q ->
  dataObj (fst (getData_settle q (success mq cq tq)
                  (fst (getData_settle p (success mp cp tp) s))))
  = dataObj (fst (getData_settle p (success mp cp tp)
                    (fst (getData_settle q (success mq cq tq) s)))).
Proof.
  cbv zeta. intros Hr Hp Hq Hne. simpl. unfold dataObjUpdater.
  destruct (Z.eqb_spec p 1); [lia|]. destruct (Z.eqb_spec q 1); [lia|].
  apply setProp_comm; [apply wf_reachable|done|lia|lia|done].
Qed.

Lemma page_arrival_order_irrelevant_witness :
  let s := state (run two_pages (initialSystem ∅)) in
  dataObj (fst (getData_settle 4 (success [movie "k7"] 4 4)
                  (fst (getData_settle 3 (success [movie "k5"] 3 4) s))))
  = dataObj (fst (getData_settle 3 (success [movie "k5"] 3 4)
                    (fst (getData_settle 4 (success [movie "k7"] 4 4) s)))).
Proof.
  apply (page_arrival_order_irrelevant ∅ two_pages 3 4); [reflexivity|lia|lia|lia].
Defined.

Lemma getData_settle_setSearchword page out w s :
  getData_settle page out (setSearchword w s)
  = (setSearchword w (fst (getData_settle page out s)), snd (getData_settle page out s)).
Proof. by destruct out as [[[[movies|] cur tot]|]|]. Qed.

(** A settling fetch never looks at the keyword in the text field: typing
    and settling commute, so a response is merged in the same way whether
    the keyword was changed before it arrived or after. *)
Theorem typing_commutes_with_settling (sys : System) (w : string) (i : nat) (out : Outcome) :
  step (Settle i out) (step (ChangeText w) sys)
  = step (ChangeText w) (step (Settle i out) sys).
Proof.
  unfold step. simpl. destruct (inflight sys !! i) as [p|]; [|done]. simpl.
  destruct (origin p).
  - by rewrite getData_settle_setSearchword.
  - unfold handleLoadMore_settle. rewrite getData_settle_setSearchword.
    by destruct (getData_settle (request_page p) out (state sys)).
Qed.

(** When a fetch in flight settles, in whatever way, [loading] and
    [isRefreshing] are cleared even if other fetches are still in flight,
    and the settled fetch is the only one that leaves the flight list. *)
Theorem any_settle_clears_loading (sys : System) (i : nat) (out : Outcome) (p : Pending) :
  inflight sys !! i = Some p ->
  let sys' := step (Settle i out) sys in
  loading (state sys') = false
  /\ isRefreshing (state sys') = false
  /\ inflight sys' = delete i (inflight sys).
Proof.
  intros Hp. cbv zeta. simpl. rewrite Hp. simpl.
  destruct (origin p).
  - by destruct (getData_settle_flags (request_page p) out (state sys)) as (-> & -> & _).
  - rewrite handleLoadMore_settle_fst. simpl.
    by destruct (getData_settle_flags (request_page p) out (state sys)) as (-> & -> & _).
Qed.

Lemma any_settle_clears_loading_witness :
  let sys := run [ChangeText "a"; SubmitEditing; SubmitEditing] (initialSystem ∅) in
  let sys' := step (Settle 0 Rejected) sys in
  loading (state sys') = false
  /\ inflight sys' = [mkPending ByGetData "a" 1].
Proof.
  pose proof (any_settle_clears_loading
                (run [ChangeText "a"; SubmitEditing; SubmitEditing] (initialSystem ∅))
                0 Rejected (mkPending ByGetData "a" 1) eq_refl) as H.
  cbv zeta in H. destruct H as (H1 & _ & H2).
  split; [exact H1|]. rewrite H2. reflexivity.
Defined.

(** From a cursor at page 1 or beyond, load-more never scrolls the list to
    the top and never turns the refresh control on. *)
Theorem loadMore_keeps_scroll_position (s : State) :
  1 <= currentPage (pagination s) ->
  forallb keepsPosition (snd (handleLoadMore_begin s)) = true
  /\ isRefreshing (fst (handleLoadMore_begin s)) = isRefreshing s.
Proof.
  intros Hc. unfold handleLoadMore_begin, handleLoadMore_call.
  destruct (isLoadingMore s || negb (hasMore (pagination s))); [done|].
  unfold getData_call.
  destruct (isEmptyString (searchword s)); [done|].
  pose proof (jsAdd_above_one _ Hc).
  destruct (Z.leb_spec (jsAdd (currentPage (pagination s)) 1) 1); [lia|]. done.
Qed.

Lemma loadMore_keeps_scroll_position_witness :
  let s := state (run [ChangeText "a"; SubmitEditing;
                       Settle 0 (page_of ["k1"; "k2"] 1 2)] (initialSystem ∅)) in
  snd (handleLoadMore_begin s) = [Fetch "a" 2]
  /\ forallb keepsPosition (snd (handleLoadMore_begin s)) = true.
Proof.
  split; [reflexivity|].
  apply (loadMore_keeps_scroll_position
           (state (run [ChangeText "a"; SubmitEditing;
                        Settle 0 (page_of ["k1"; "k2"] 1 2)] (initialSystem ∅)))).
  vm_compute. discriminate.
Defined.
